(** * Keyguard Bitcoin demo: Electrum transport, chain queries and wallet

    A shallow embedding of the JavaScript of [demos/bitcoin]:
    - [ElectrumWS.js]: the hex helpers and the [ElectrumWS] socket class;
    - the [ElectrumApi] class ([getHistory], [broadcastTransaction],
      [deriveAddressFromInput]);
    - the two Vue wallets (the Electrum one and the SmartBit one of
      [wallet.js]): [utxos], the address scan of the [accountExtPubKey]
      watcher and [updateTransaction].

    JavaScript strings are modelled as [string] (code units 0..255), numbers
    that the code only uses as integers as [Z] or [N], JS [Map]s as [gmap],
    and plain JS objects as association lists in property order. *)

From Stdlib Require Import ZArith NArith Lia Bool List Ascii String.
From Stdlib Require Import Init.Byte Numbers.DecimalString Numbers.DecimalZ.
From Stdlib Require Import Sorting.Permutation Sorting.Sorted.
From stdpp Require Import base option gmap strings.
Import ListNotations.

Local Open Scope string_scope.
Local Open Scope list_scope.
Set Warnings "-register-all".

(** String concatenation, JavaScript's [+] on strings. *)
Local Notation "a +++ b" := (String.append a b)
  (at level 60, right associativity).

(* ===================================================================== *)
(** ** Hex helpers ([ElectrumWS.js], lines 19-33) *)
(* ===================================================================== *)

Module Hex.

Definition HEX_ALPHABET : string := "0123456789abcdef".

(** [HEX_ALPHABET[i]] appended to a string: a one-character string, or the
    text of [undefined] when [i] is out of range. *)
Definition alphabetAt (i : N) : string :=
  match String.get (N.to_nat i) HEX_ALPHABET with
  | Some c => String c EmptyString
  | None => "undefined"
  end.

(** One iteration of the loop of [bytesToHex]. *)
Definition hexOfByte (code : byte) : string :=
  alphabetAt (N.shiftr (Byte.to_N code) 4) +++
  alphabetAt (N.land (Byte.to_N code) 15).

(** [bytesToHex]: [hex] starts empty and grows by two characters a byte. *)
Definition bytesToHex (bytes : list byte) : string :=
  fold_left (fun hex code => hex +++ hexOfByte code) bytes "".

(** The regular expression [.]: any code unit but a line terminator. *)
Definition dot (c : ascii) : bool :=
  negb (N.eqb (N_of_ascii c) 10 || N.eqb (N_of_ascii c) 13).

(** [hex.match(/.{2}/g) || []]: the non-overlapping matches of two
    characters, found from the left; a position where no match starts is
    skipped. *)
Fixpoint matchPairs (hex : string) : list string :=
  match hex with
  | String c1 (String c2 rest as tl) =>
      if dot c1 && dot c2
      then String c1 (String c2 EmptyString) :: matchPairs rest
      else matchPairs tl
  | _ => []
  end.

(** White space skipped by [parseInt] (code units below 256). *)
Definition isStrWhiteSpace (c : ascii) : bool :=
  let n := N_of_ascii c in
  (N.leb 9 n && N.leb n 13) || N.eqb n 32 || N.eqb n 160.

(** Value of a digit in radix 16. *)
Definition hexValue (c : ascii) : option Z :=
  let n := Z.of_N (N_of_ascii c) in
  if (48 <=? n)%Z && (n <=? 57)%Z then Some (n - 48)%Z
  else if (97 <=? n)%Z && (n <=? 102)%Z then Some (n - 87)%Z
  else if (65 <=? n)%Z && (n <=? 70)%Z then Some (n - 55)%Z
  else None.

Fixpoint trimStart (s : string) : string :=
  match s with
  | String c rest => if isStrWhiteSpace c then trimStart rest else s
  | EmptyString => s
  end.

(** The longest prefix of digits, read in radix 16; [None] when empty. *)
Fixpoint digits16 (acc : option Z) (s : string) : option Z :=
  match s with
  | String c rest =>
      match hexValue c with
      | Some d => digits16 (Some (16 * default 0%Z acc + d)%Z) rest
      | None => acc
      end
  | EmptyString => acc
  end.

Definition stripSign (s : string) : Z * string :=
  match s with
  | String "-" rest => ((-1)%Z, rest)
  | String "+" rest => (1%Z, rest)
  | _ => (1%Z, s)
  end.

Definition strip0x (s : string) : string :=
  match s with
  | String "0" (String "x" rest) => rest
  | String "0" (String "X" rest) => rest
  | _ => s
  end.

(** [parseInt(s, 16)]; [None] is [NaN]. *)
Definition parseInt16 (s : string) : option Z :=
  let '(sign, s1) := stripSign (trimStart s) in
  match digits16 None (strip0x s1) with
  | Some n => Some (sign * n)%Z
  | None => None
  end.

(** Storing a number in a [Uint8Array]: [NaN] becomes 0, an integer is
    reduced modulo 256. *)
Definition toUint8 (v : option Z) : byte :=
  match v with
  | Some n => default x00 (Byte.of_N (Z.to_N (n mod 256)))
  | None => x00
  end.

Definition hexToBytes (hex : string) : list byte :=
  map (fun b => toUint8 (parseInt16 b)) (matchPairs hex).

Definition isLowerHexChar (c : ascii) : bool :=
  let n := N_of_ascii c in
  (N.leb 48 n && N.leb n 57) || (N.leb 97 n && N.leb n 102).

Fixpoint allChars (p : ascii -> bool) (s : string) : bool :=
  match s with
  | String c rest => p c && allChars p rest
  | EmptyString => true
  end.

End Hex.

(* ===================================================================== *)
(** ** JavaScript values received as JSON, and the conversions used on them *)
(* ===================================================================== *)

Module Js.

(** A value produced by [JSON.parse]. Numbers are the integers. An object is
    its list of own properties, in property order. *)
Inductive json : Type :=
| JNull
| JBool (b : bool)
| JNum (n : Z)
| JStr (s : string)
| JArr (items : list json)
| JObj (props : list (string * json)).

(** Own property [k] of a property list; [None] is [undefined]. *)
Fixpoint assoc {A : Type} (k : string) (l : list (string * A)) : option A :=
  match l with
  | [] => None
  | (k', v) :: rest => if String.eqb k k' then Some v else assoc k rest
  end.

(** [o[k] = v]: an own property keeps its place, a new one goes last. *)
Fixpoint objSet {A : Type} (k : string) (v : A) (o : list (string * A))
    : list (string * A) :=
  match o with
  | [] => [(k, v)]
  | (k', v') :: rest =>
      if String.eqb k k' then (k, v) :: rest else (k', v') :: objSet k v rest
  end.

(** [{...target, ...source}] *)
Definition objSpread {A : Type} (target source : list (string * A))
    : list (string * A) :=
  fold_left (fun o kv => objSet (fst kv) (snd kv) o) source target.

(** [Object.values(o)]; no key used here is an array index, so the
    property order is the order of creation. *)
Definition Object_values {A : Type} (o : list (string * A)) : list A :=
  map snd o.

(** [v.k], for a key that no array and no prototype defines ([id],
    [result], [error], [method], [params]): [Some] exactly when [k in v]. *)
Definition getProp (k : string) (v : json) : option json :=
  match v with
  | JObj props => assoc k props
  | _ => None
  end.

(** ToBoolean, as applied by [||], [?:] and [if]. *)
Definition truthy (v : json) : bool :=
  match v with
  | JNull => false
  | JBool b => b
  | JNum n => negb (n =? 0)%Z
  | JStr s => negb (String.eqb s "")
  | JArr _ | JObj _ => true
  end.

(** ToString of an integer number (below the exponent notation range). *)
Definition numberToString (n : Z) : string :=
  NilEmpty.string_of_int (Z.to_int n).

(** Whether the character [c] occurs in [s]. *)
Fixpoint occurs (c : ascii) (s : string) : bool :=
  match s with
  | EmptyString => false
  | String x rest => Ascii.eqb x c || occurs c rest
  end.

(** ToString of a JSON value, as template literals, property keys and
    [new Error(v)] apply it. *)
Fixpoint toString (v : json) : string :=
  match v with
  | JNull => "null"
  | JBool true => "true"
  | JBool false => "false"
  | JNum n => numberToString n
  | JStr s => s
  | JArr items =>
      (fix join (l : list json) : string :=
         match l with
         | [] => ""
         | x :: rest =>
             match x with JNull => "" | _ => toString x end +++
             match rest with [] => "" | _ => "," +++ join rest end
         end) items
  | JObj _ => "[object Object]"
  end.

(** ToPropertyKey of a value read from an object ([None] is
    [undefined]). *)
Definition propertyKey (v : option json) : string :=
  match v with
  | Some v => toString v
  | None => "undefined"
  end.

(** What a JavaScript function throws. *)
Inductive exn : Type :=
| Error (message : string)      (* [new Error(message)] *)
| TypeError.                    (* raised by the language itself *)

(** [new Error(v)] for a defined [v]. *)
Definition newError (v : json) : exn := Error (toString v).

(** [s.endsWith(suffix)] *)
Definition endsWith (s suffix : string) : bool :=
  let n := String.length s in
  let m := String.length suffix in
  if Nat.leb m n
  then String.eqb (String.substring (n - m) m s) suffix
  else false.

(** [v[0]] for a value that is neither [undefined] nor [null]. *)
Definition firstElement (v : json) : option json :=
  match v with
  | JArr items => head items
  | JStr (String c _) => Some (JStr (String c EmptyString))
  | JObj props => assoc "0" props
  | _ => None
  end.

Fixpoint characters (s : string) : list json :=
  match s with
  | EmptyString => []
  | String c rest => JStr (String c EmptyString) :: characters rest
  end.

(** The arguments of a call [f(...v)]; [None] when [v] is not iterable. *)
Definition spread (v : json) : option (list json) :=
  match v with
  | JArr items => Some items
  | JStr s => Some (characters s)
  | _ => None
  end.

End Js.

(* ===================================================================== *)
(** ** The socket class [ElectrumWS] ([ElectrumWS.js], lines 57-182) *)
(* ===================================================================== *)

Module ElectrumWS.
Import Js.

(** A promise is named by its position in the store of promises; a
    subscription callback by a number. *)
Definition promiseRef := nat.
Definition callbackRef := nat.

Inductive promiseState : Type :=
| Pending
| Fulfilled (value : json)
| Rejected (reason : exn).

(** The fields of the object. An entry [{resolve, reject}] of [_requests]
    is named by the promise that the two functions settle. [sent] lists
    the payloads handed to [ws.send]; [calls] lists the invocations of
    subscription callbacks, with their arguments. *)
Record t : Type := mk {
  _requests : gmap Z promiseRef;
  _subscriptions : gmap string callbackRef;
  promises : list promiseState;
  sent : list json;
  calls : list (callbackRef * list json)
}.

Definition empty : t := mk ∅ ∅ [] [] [].

Definition set_requests (r : gmap Z promiseRef) (ws : t) : t :=
  mk r (_subscriptions ws) (promises ws) (sent ws) (calls ws).

Definition set_subscriptions (s : gmap string callbackRef) (ws : t) : t :=
  mk (_requests ws) s (promises ws) (sent ws) (calls ws).

(** Calling [resolve] or [reject] of promise [p]: a promise that is no
    longer pending ignores the call. *)
Definition settle (p : promiseRef) (outcome : promiseState) (ws : t) : t :=
  match promises ws !! p with
  | Some Pending =>
      mk (_requests ws) (_subscriptions ws) (<[p := outcome]> (promises ws))
         (sent ws) (calls ws)
  | _ => ws
  end.

Definition invoke (cb : callbackRef) (args : list json) (ws : t) : t :=
  mk (_requests ws) (_subscriptions ws) (promises ws) (sent ws)
     (calls ws ++ [(cb, args)]).

(** [do { id = Math.ceil(Math.random() * 1e5) } while (has(id))] over the
    successive random draws; [None] when the draws run out. *)
Fixpoint pickId (draws : list Z) (requests : gmap Z promiseRef) : option Z :=
  match draws with
  | [] => None
  | id :: rest =>
      match requests !! id with
      | Some _ => pickId rest requests
      | None => Some id
      end
  end.

(** [request(method, ...params)]: registers the callbacks of a new promise
    under a fresh id and sends the payload (once the socket is open); the
    result is that promise. *)
Definition request (draws : list Z) (method : string) (params : list json)
    (ws : t) : option (promiseRef * t) :=
  match pickId draws (_requests ws) with
  | None => None
  | Some id =>
      let payload := JObj [("jsonrpc", JStr "2.0"); ("method", JStr method);
                           ("params", JArr params); ("id", JNum id)] in
      let promise := List.length (promises ws) in
      Some (promise,
            mk (<[id := promise]> (_requests ws)) (_subscriptions ws)
               (promises ws ++ [Pending]) (sent ws ++ [payload]) (calls ws))
  end.

(** [`${method}${typeof params[0] === 'string' ? `-${params[0]}` : ''}`] *)
Definition subscriptionKey (method : string) (first : option json) : string :=
  method +++ match first with
             | Some (JStr s) => "-" +++ s
             | _ => ""
             end.

(** [subscribe(method, callback, ...params)]: registers the callback and
    issues the request; the caller's [callback(await ...)] runs when the
    promise returned here is fulfilled. *)
Definition subscribe (draws : list Z) (method : string) (callback : callbackRef)
    (params : list json) (ws : t) : option (promiseRef * t) :=
  let method := method +++ ".subscribe" in
  let key := subscriptionKey method (head params) in
  request draws method params
    (set_subscriptions (<[key := callback]> (_subscriptions ws)) ws).

(** [unsubscribe(method, ...params)] *)
Definition unsubscribe (draws : list Z) (method : string) (params : list json)
    (ws : t) : option (promiseRef * t) :=
  let method := method +++ ".subscribe" in
  let key := subscriptionKey method (head params) in
  request draws (method +++ ".unsubscribe") params
    (set_subscriptions (delete key (_subscriptions ws)) ws).

(** How a piece of code ends. *)
Inductive completion : Type :=
| Normal
| Throws (e : exn).

(** The pending request that [response] answers:
    ['id' in response && this._requests.has(response.id)]. The keys of
    the map are numbers, so only a number finds one. *)
Definition pendingFor (response : json) (ws : t) : option (Z * promiseRef) :=
  match getProp "id" response with
  | Some (JNum id) =>
      match _requests ws !! id with
      | Some p => Some (id, p)
      | None => None
      end
  | _ => None
  end.

(** The first [if] of [_onMessage]. *)
Definition settleRequest (response : json) (ws : t) : t :=
  match pendingFor response ws with
  | Some (id, callbacks) =>
      let ws := set_requests (delete id (_requests ws)) ws in
      match getProp "result" response with
      | Some result => settle callbacks (Fulfilled result) ws
      | None =>
          let error :=
            match getProp "error" response with
            | Some e => if truthy e then e else JStr "No result"
            | None => JStr "No result"
            end in
          settle callbacks (Rejected (newError error)) ws
      end
  | None => ws
  end.

(** The second [if] of [_onMessage]. *)
Definition routeSubscription (response : json) (ws : t) : t * completion :=
  match getProp "method" response with
  | None => (ws, Normal)
  | Some (JStr method) =>
      if endsWith method "subscribe" then
        match getProp "params" response with
        | None | Some JNull => (ws, Throws TypeError)
        | Some params =>
            let key := subscriptionKey method (firstElement params) in
            match _subscriptions ws !! key with
            | Some callback =>
                match spread params with
                | Some args => (invoke callback args ws, Normal)
                | None => (ws, Throws TypeError)
                end
            | None => (ws, Normal)
            end
        end
      else (ws, Normal)
  | Some _ => (ws, Throws TypeError)
  end.

(** [_onMessage(msg)], from the parsed [response] on. *)
Definition _onMessage (response : json) (ws : t) : t * completion :=
  match response with
  | JObj _ | JArr _ => routeSubscription response (settleRequest response ws)
  | _ => (ws, Throws TypeError)
  end.



(** The outcome that the first [if] gives to the promise of the request:
    [resolve(response.result)] or
    [reject(new Error(response.error || 'No result'))]. *)
Definition outcomeOf (response : json) : promiseState :=
  match getProp "result" response with
  | Some result => Fulfilled result
  | None =>
      Rejected (newError
        match getProp "error" response with
        | Some e => if truthy e then e else JStr "No result"
        | None => JStr "No result"
        end)
  end.

(** The state that the class keeps: the callbacks of a pending request
    belong to a promise that is still pending, and to no other request. *)
Definition consistent (ws : t) : Prop :=
  (forall id p, _requests ws !! id = Some p -> promises ws !! p = Some Pending)
  /\ (forall id1 id2 p,
        _requests ws !! id1 = Some p -> _requests ws !! id2 = Some p ->
        id1 = id2).

End ElectrumWS.

(* ===================================================================== *)
(** ** The chain query facade [ElectrumApi] *)
(* ===================================================================== *)

Module ElectrumApi.
Import Js.

(** An outcome of a call that may throw (or of an awaited promise that may
    be rejected). *)
Definition result (A : Type) : Type := A + exn.

Definition bind {A B : Type} (r : result A) (k : A -> result B) : result B :=
  match r with
  | inl a => k a
  | inr e => inr e
  end.

(** [list.map(f)] for an [f] that may throw: the first throw ends it. *)
Fixpoint mapResult {A B : Type} (f : A -> result B) (l : list A)
    : result (list B) :=
  match l with
  | [] => inl []
  | x :: rest =>
      bind (f x) (fun y => bind (mapResult f rest) (fun ys => inl (y :: ys)))
  end.

(** *** BitcoinJS, as far as the class reads it *)

(** An item of a decompiled script: [Buffer | number]. *)
Inductive scriptItem : Type :=
| Opcode (n : Z)
| Buffer (bytes : list byte).

(** [typeof n !== 'number'] *)
Definition notNumber (n : scriptItem) : bool :=
  match n with
  | Opcode _ => false
  | Buffer _ => true
  end.

(** An input and an output of a [BitcoinJS.Transaction]. *)
Record TxInput : Type := {
  hash : list byte;
  index : Z;
  script : list byte;
  witness : list (list byte)
}.

Record TxOutput : Type := {
  o_script : list byte;
  o_value : Z
}.

(** A decoded transaction, with the values of its methods. *)
Record Transaction : Type := {
  getId : string;
  ins : list TxInput;
  outs : list TxOutput;
  tx_version : Z;
  virtualSize : Z;
  tx_isCoinbase : bool;
  tx_weight : Z
}.

Record Block : Type := {
  blk_getId : string;
  blk_timestamp : Z;
  blk_prevHash : list byte;
  blk_bits : Z;
  blk_nonce : Z;
  blk_version : Z;
  blk_merkleRoot : list byte;
  blk_weight : Z
}.

(** The descriptions given to [BitcoinJS.payments]. *)
Inductive payment (Network : Type) : Type :=
| p2pkh (pubkey : scriptItem) (network : Network)
| p2wpkh (pubkey : scriptItem) (network : Network)
| p2ms (m : Z) (pubkeys : list scriptItem) (network : Network)
| p2sh (redeem : payment Network)
| p2wsh (redeem : payment Network).

Arguments p2pkh {Network} pubkey network.
Arguments p2wpkh {Network} pubkey network.
Arguments p2ms {Network} m pubkeys network.
Arguments p2sh {Network} redeem.
Arguments p2wsh {Network} redeem.

(** The functions of the library. Decoding hex received from the server
    may throw; the script helpers are taken to return a value. *)
Class BitcoinJS (Network : Type) : Type := {
  (** [BitcoinJS.script.decompile] *)
  decompile : scriptItem -> list scriptItem;
  (** [BitcoinJS.payments.<kind>(...).address] *)
  address : payment Network -> string;
  (** [BitcoinJS.payments.<kind>(...).output] *)
  output : payment Network -> list byte;
  (** [BitcoinJS.address.fromOutputScript] *)
  fromOutputScript : list byte -> Network -> string;
  (** [BitcoinJS.Transaction.fromHex] *)
  Transaction_fromHex : string -> result Transaction;
  (** [BitcoinJS.Block.fromHex] *)
  Block_fromHex : string -> result Block;
  (** [crypto.subtle.digest('SHA-256', _)] *)
  sha256 : list byte -> list byte
}.

(** *** The plain records that the class builds *)

Record PlainBlockHeader : Type := {
  blockHash : string;
  blockHeight : Z;
  timestamp : Z;
  prevHash : string;
  bits : Z;
  nonce : Z;
  hdr_version : Z;
  merkleRoot : string;
  hdr_weight : Z
}.

Record PlainInput : Type := {
  pi_script : list byte;
  pi_txid : string;
  pi_address : string;
  pi_witness : list (list byte);
  pi_index : Z;
  pi_output_index : Z
}.

Record PlainOutput : Type := {
  po_script : list byte;
  po_address : string;
  po_value : Z;
  po_index : Z
}.

(** [None] in the three block fields is [null]. *)
Record PlainTransaction : Type := {
  txid : string;
  inputs : list PlainInput;
  outputs : list PlainOutput;
  version : Z;
  vsize : Z;
  isCoinbase : bool;
  weight : Z;
  block_hash : option string;
  block_height : option Z;
  block_time : option Z
}.

Definition withBlock (tx : PlainTransaction)
    (hash : option string) (height time : option Z) : PlainTransaction :=
  {| txid := txid tx; inputs := inputs tx; outputs := outputs tx;
     version := version tx; vsize := vsize tx; isCoinbase := isCoinbase tx;
     weight := weight tx;
     block_hash := hash; block_height := height; block_time := time |}.

(** An entry of an address history: [{tx_hash, height}]; a missing
    [height] is [None]. *)
Record Receipt : Type := {
  tx_hash : string;
  height : option Z
}.

(** [this._socket.request(method, ...)] awaited, for each method that the
    class calls, with the result types of the annotations at the call
    sites. [World] is the state of the socket and of the server. *)
Class Socket (World : Type) : Type := {
  scripthash_get_history : string -> World -> result (list Receipt) * World;
  block_header : Z -> World -> result string * World;
  transaction_get : string -> World -> result string * World;
  transaction_broadcast : string -> World -> result json * World
}.

Definition MAX_SAFE_INTEGER : Z := 9007199254740991.

(** [array.sort(compare)]: stable, [compare a b <= 0] keeps [a] first. *)
Fixpoint sortInsert {A : Type} (compare : A -> A -> Z) (x : A) (l : list A)
    : list A :=
  match l with
  | [] => [x]
  | y :: rest =>
      if (compare x y <=? 0)%Z then x :: l
      else y :: sortInsert compare x rest
  end.

Definition sort {A : Type} (compare : A -> A -> Z) (l : list A) : list A :=
  fold_right (sortInsert compare) [] l.

Section Api.
Context {Network : Type} {lib : BitcoinJS Network}.
Context {World : Type} {socket : Socket World}.
Variable network : Network.

(** [pubKeyToHash(scriptPubKey)], of [ElectrumWS.js]. *)
Definition pubKeyToHash (scriptPubKey : string + list byte) : string :=
  let bytes := match scriptPubKey with
               | inl hex => Hex.hexToBytes hex
               | inr bytes => bytes
               end in
  Hex.bytesToHex (rev (sha256 bytes)).

(** [deriveAddressFromInput(input)]. An index read under a test of the
    length is in range; the default of [nth] is never the result. *)
Definition deriveAddressFromInput (input : TxInput) : string :=
  let chunks := decompile (Buffer (script input)) in
  let witness := witness input in
  let chunks_length := List.length chunks in
  let witness_length := List.length witness in
  let undefined := Opcode 0 in
  if Nat.eqb chunks_length 2 && Nat.eqb witness_length 0 then
    address (p2pkh (nth 1 chunks undefined) network)
  else if Nat.eqb chunks_length 1 && Nat.eqb witness_length 2 then
    address (p2sh (p2wpkh (Buffer (nth 1 witness [])) network))
  else if Nat.eqb chunks_length 0 && Nat.eqb witness_length 2 then
    address (p2wpkh (Buffer (nth 1 witness [])) network)
  else if Nat.ltb 2 chunks_length && Nat.eqb witness_length 0 then
    let m := (Z.of_nat chunks_length - 2)%Z in
    let pubkeys :=
      List.filter notNumber
        (decompile (nth (chunks_length - 1) chunks undefined)) in
    address (p2sh (p2ms m pubkeys network))
  else if Nat.eqb chunks_length 1 && Nat.ltb 2 witness_length then
    let m := (Z.of_nat witness_length - 2)%Z in
    let pubkeys :=
      List.filter notNumber
        (decompile (Buffer (nth (witness_length - 1) witness []))) in
    address (p2sh (p2wsh (p2ms m pubkeys network)))
  else if Nat.eqb chunks_length 0 && Nat.ltb 2 witness_length then
    let m := (Z.of_nat witness_length - 2)%Z in
    let pubkeys :=
      List.filter notNumber
        (decompile (Buffer (nth (witness_length - 1) witness []))) in
    address (p2wsh (p2ms m pubkeys network))
  else "-unkown-".

(** [inputToPlain(input, index)] *)
Definition inputToPlain (input : TxInput) (index_ : Z) : PlainInput :=
  {| pi_script := script input;
     pi_txid := Hex.bytesToHex (rev (hash input));
     pi_address := deriveAddressFromInput input;
     pi_witness := witness input;
     pi_index := index_;
     pi_output_index := index input |}.

(** [outputToPlain(output, index)] *)
Definition outputToPlain (output_ : TxOutput) (index_ : Z) : PlainOutput :=
  {| po_script := o_script output_;
     po_address := fromOutputScript (o_script output_) network;
     po_value := o_value output_;
     po_index := index_ |}.

(** [array.map((x, index) => f(x, index))] *)
Fixpoint mapIndexed {A B : Type} (f : A -> Z -> B) (i : Z) (l : list A)
    : list B :=
  match l with
  | [] => []
  | x :: rest => f x i :: mapIndexed f (i + 1)%Z rest
  end.

(** [transactionToPlain(tx, plainHeader)] for a [tx] given as a string. *)
Definition transactionToPlain (tx : string)
    (plainHeader : option PlainBlockHeader) : result PlainTransaction :=
  bind (Transaction_fromHex tx) (fun tx =>
    let plain :=
      {| txid := getId tx;
         inputs := mapIndexed inputToPlain 0 (ins tx);
         outputs := mapIndexed outputToPlain 0 (outs tx);
         version := tx_version tx;
         vsize := virtualSize tx;
         isCoinbase := tx_isCoinbase tx;
         weight := tx_weight tx;
         block_hash := None; block_height := None; block_time := None |} in
    inl match plainHeader with
        | Some h => withBlock plain (Some (blockHash h))
                      (Some (blockHeight h)) (Some (timestamp h))
        | None => plain
        end).

(** [getReceipts(script)] ([isScriptHash] is [false]) *)
Definition getReceipts (script_ : string + list byte) (w : World)
    : result (list Receipt) * World :=
  scripthash_get_history (pubKeyToHash script_) w.

(** [getBlockHeader(height)] *)
Definition getBlockHeader (height_ : Z) (w : World)
    : result PlainBlockHeader * World :=
  let '(raw, w) := block_header height_ w in
  (bind raw (fun raw =>
   bind (Block_fromHex raw) (fun block =>
     inl {| blockHash := blk_getId block;
            blockHeight := height_;
            timestamp := blk_timestamp block;
            prevHash := Hex.bytesToHex (rev (blk_prevHash block));
            bits := blk_bits block;
            nonce := blk_nonce block;
            hdr_version := blk_version block;
            merkleRoot := Hex.bytesToHex (blk_merkleRoot block);
            hdr_weight := blk_weight block |})), w).

(** [typeof height === 'number' && height > 0] *)
Definition positiveHeight (height_ : option Z) : option Z :=
  match height_ with
  | Some h => if (0 <? h)%Z then Some h else None
  | None => None
  end.

(** [getTransaction(hash, height)]: a header that cannot be fetched is
    logged and left out. *)
Definition getTransaction (hash_ : string) (height_ : option Z) (w : World)
    : result PlainTransaction * World :=
  match transaction_get hash_ w with
  | (inr e, w) => (inr e, w)
  | (inl raw, w) =>
      let '(blockHeader, w) :=
        match positiveHeight height_ with
        | Some h =>
            match getBlockHeader h w with
            | (inl header, w) => (Some header, w)
            | (inr _, w) => (None, w)
            end
        | None => (None, w)
        end in
      (transactionToPlain raw blockHeader, w)
  end.

(** [entry.height || Number.MAX_SAFE_INTEGER] *)
Definition heightOrMax (entry : Receipt) : Z :=
  match height entry with
  | Some h => if (h =? 0)%Z then MAX_SAFE_INTEGER else h
  | None => MAX_SAFE_INTEGER
  end.

(** The first loop of [getHistory]: the first header that cannot be
    fetched ends the loop ([break]). *)
Fixpoint fetchBlockHeaders (blockHeights : list Z)
    (blockHeaders : gmap Z PlainBlockHeader) (w : World)
    : gmap Z PlainBlockHeader * World :=
  match blockHeights with
  | [] => (blockHeaders, w)
  | h :: rest =>
      match getBlockHeader h w with
      | (inl header, w) => fetchBlockHeaders rest (<[h := header]> blockHeaders) w
      | (inr _, w) => (blockHeaders, w)
      end
  end.

(** [const blockHeader = blockHeaders.get(height); if (blockHeader) ...]:
    the three block fields of [tx] are assigned when the header of the
    height of [entry] was fetched. *)
Definition attachHeader (blockHeaders : gmap Z PlainBlockHeader)
    (entry : Receipt) (tx : PlainTransaction) : PlainTransaction :=
  match height entry ≫= (blockHeaders !!.) with
  | Some blockHeader =>
      withBlock tx (Some (blockHash blockHeader)) (height entry)
        (Some (timestamp blockHeader))
  | None => tx
  end.

(** The second loop of [getHistory]: the first transaction that cannot be
    fetched ends the function ([return txs]). *)
Fixpoint fetchTransactions (history : list Receipt)
    (blockHeaders : gmap Z PlainBlockHeader) (txs : list PlainTransaction)
    (w : World) : list PlainTransaction * World :=
  match history with
  | [] => (txs, w)
  | entry :: rest =>
      match getTransaction (tx_hash entry) None w with
      | (inl tx, w) =>
          let tx := attachHeader blockHeaders entry tx in
          fetchTransactions rest blockHeaders (txs ++ [tx]) w
      | (inr _, w) => (txs, w)
      end
  end.

(** The first loop went through [heights] without a failure, from the
    map [m] and the world [w] to [m'] and [w']. *)
Inductive headersFetched
    : list Z -> gmap Z PlainBlockHeader -> World ->
      gmap Z PlainBlockHeader -> World -> Prop :=
| headersFetched_nil m w : headersFetched [] m w m w
| headersFetched_cons h rest m w header w1 m' w' :
    getBlockHeader h w = (inl header, w1) ->
    headersFetched rest (<[h := header]> m) w1 m' w' ->
    headersFetched (h :: rest) m w m' w'.

(** The second loop went through [entries] without a failure and pushed
    [fetched] onto [txs]. *)
Inductive transactionsFetched (blockHeaders : gmap Z PlainBlockHeader)
    : list Receipt -> World -> list PlainTransaction -> World -> Prop :=
| transactionsFetched_nil w : transactionsFetched blockHeaders [] w [] w
| transactionsFetched_cons entry rest w tx w1 fetched w' :
    getTransaction (tx_hash entry) None w = (inl tx, w1) ->
    transactionsFetched blockHeaders rest w1 fetched w' ->
    transactionsFetched blockHeaders (entry :: rest) w
      (attachHeader blockHeaders entry tx :: fetched) w'.

(** The entries of the history, newest first, and the heights whose
    headers [getHistory] asks for. *)
Definition sortedHistory (history : list Receipt) : list Receipt :=
  sort (fun a b => (heightOrMax b - heightOrMax a)%Z) history.

Definition heightsOf (history : list Receipt) : list Z :=
  omap (fun entry => positiveHeight (height entry)) history.

(** [getHistory(script)] *)
Definition getHistory (script_ : string + list byte) (w : World)
    : result (list PlainTransaction) * World :=
  match getReceipts script_ w with
  | (inr e, w) => (inr e, w)
  | (inl history, w) =>
      let history := sortedHistory history in
      let blockHeights := heightsOf history in
      let '(blockHeaders, w) := fetchBlockHeaders blockHeights ∅ w in
      let '(txs, w) := fetchTransactions history blockHeaders [] w in
      (inl txs, w)
  end.

(** [broadcastTransaction(rawTx)] *)
Definition broadcastTransaction (rawTx : string) (w : World)
    : result PlainTransaction * World :=
  match transactionToPlain rawTx None with
  | inr e => (inr e, w)
  | inl tx =>
      match transaction_broadcast rawTx w with
      | (inr e, w) => (inr e, w)
      | (inl hash_, w) =>
          match hash_ with
          | JStr h => if String.eqb h (txid tx) then (inl tx, w)
                      else (inr (newError hash_), w)
          | _ => (inr (newError hash_), w)
          end
      end
  end.

End Api.
End ElectrumApi.

(* ===================================================================== *)
(** ** The wallet on [ElectrumApi] (the Vue application of the demo) *)
(* ===================================================================== *)

Module Wallet.
Import Js ElectrumApi.

(** As soon as one inactive address is found, search stops. *)
Definition INACTIVE_ADDRESS_GAP : nat := 1.

Record AddressInfo : Type := {
  scriptPubKey : list byte;
  ai_address : string;
  ai_index : nat;
  active : bool
}.

Definition setActive (a : bool) (info : AddressInfo) : AddressInfo :=
  {| scriptPubKey := scriptPubKey info; ai_address := ai_address info;
     ai_index := ai_index info; active := a |}.

(** The entries of the list given to BitcoinJS as transaction inputs. *)
Record Utxo : Type := {
  u_hash : string;
  u_index : Z;
  witnessUtxo_script : list byte;
  witnessUtxo_value : Z;
  u_address : string;
  isInternal : bool
}.

(** [tx.block_time || Number.MAX_SAFE_INTEGER] *)
Definition blockTimeOrMax (tx : PlainTransaction) : Z :=
  match block_time tx with
  | Some t => if (t =? 0)%Z then MAX_SAFE_INTEGER else t
  | None => MAX_SAFE_INTEGER
  end.

(** The computed property [txsArray]. *)
Definition txsArray (txs : list (string * PlainTransaction))
    : list PlainTransaction :=
  sort (fun tx1 tx2 => (blockTimeOrMax tx2 - blockTimeOrMax tx1)%Z)
       (Object_values txs).

(** [`${txid}:${index}`] *)
Definition outpoint (txid_ : string) (index_ : Z) : string :=
  txid_ +++ ":" +++ numberToString index_.

(** [list.includes(x)] on strings *)
Definition includes (x : string) (l : list string) : bool :=
  existsb (String.eqb x) l.

(** The body of [utxos], from [this.txsArray] on. An element of the flat
    array of outputs is an output with the [txid] of its transaction. *)
Definition utxosOf (txsArray_ : list PlainTransaction)
    (ext_addresses int_addresses : list AddressInfo) : list Utxo :=
  match txsArray_ with
  | [] => []
  | _ =>
      let inputs_ :=
        fold_left
          (fun list_ tx =>
             (list_ ++ map (fun input =>
                              outpoint (pi_txid input) (pi_output_index input))
                           (inputs tx))%list)
          txsArray_ [] in
      let outputs_ :=
        fold_left
          (fun list_ tx =>
             (list_ ++ map (fun output_ => (output_, txid tx))
                           (outputs tx))%list)
          txsArray_ [] in
      let externalAddresses := map ai_address ext_addresses in
      let internalAddresses := map ai_address int_addresses in
      fold_left
        (fun utxos_ '(output_, txid_) =>
           let address_ := po_address output_ in
           if negb (includes address_ externalAddresses)
              && negb (includes address_ internalAddresses)
           then utxos_
           else if includes (outpoint txid_ (po_index output_)) inputs_
           then utxos_
           else (utxos_ ++
                [{| u_hash := txid_;
                    u_index := po_index output_;
                    witnessUtxo_script := po_script output_;
                    witnessUtxo_value := po_value output_;
                    u_address := address_;
                    isInternal := includes address_ internalAddresses |}])%list)
        outputs_ []
  end.

(** The record that the loop of [utxos] pushes for an output of the
    transaction [txid_]. *)
Definition utxoOf (int_addresses : list AddressInfo) (txid_ : string)
    (output_ : PlainOutput) : Utxo :=
  {| u_hash := txid_;
     u_index := po_index output_;
     witnessUtxo_script := po_script output_;
     witnessUtxo_value := po_value output_;
     u_address := po_address output_;
     isInternal :=
       includes (po_address output_) (map ai_address int_addresses) |}.

(** An output is ours when its address is that of a known entry. *)
Definition owned (ext_addresses int_addresses : list AddressInfo)
    (output_ : PlainOutput) : Prop :=
  In (po_address output_) (map ai_address ext_addresses)
  \/ In (po_address output_) (map ai_address int_addresses).

(** An input of a record of the ledger refers to output [index_] of
    transaction [txid_]. *)
Definition spent (txs : list (string * PlainTransaction)) (txid_ : string)
    (index_ : Z) : Prop :=
  exists tx input,
    In tx (Object_values txs) /\ In input (inputs tx)
    /\ pi_txid input = txid_ /\ pi_output_index input = index_.

(** The computed property [utxos]. *)
Definition utxos (txs : list (string * PlainTransaction))
    (ext_addresses int_addresses : list AddressInfo) : list Utxo :=
  utxosOf (txsArray txs) ext_addresses int_addresses.

(** [balance] *)
Definition balance (txs : list (string * PlainTransaction))
    (ext_addresses int_addresses : list AddressInfo) : Z :=
  fold_left (fun sum utxo => (sum + witnessUtxo_value utxo)%Z)
            (utxos txs ext_addresses int_addresses) 0%Z.

(** *** The scan of one chain in the watcher of [accountExtPubKey] *)

(** How a run of the scan ends; [Unfinished] when the steps allowed to
    the [while] loop run out before the loop ends. *)
Inductive run : Type :=
| Finished
| Threw (e : exn)
| Unfinished.

Section Scan.
Context {S : Type}.
(** [updateAddressInfoActivity(addressInfo)]: the value that it stores in
    [addressInfo.active]. *)
Variable probe : AddressInfo -> S -> result bool * S.
(** What follows the test of the gap in the body of a loop: nothing in
    this wallet, [fetchTxHistory] in the wallet of [wallet.js]. *)
Variable after : AddressInfo -> S -> result unit * S.
(** The entry built for an index, with [active: false]. *)
Variable newAddressInfo : nat -> AddressInfo.
(** The global [INACTIVE_ADDRESS_GAP]. *)
Variable gap : nat.

(** The [for ... of] loop over the entries already known: [seen] are the
    entries behind the loop, [todo] those ahead. *)
Fixpoint rescan (seen todo : list AddressInfo) (width : nat) (s : S)
    : (list AddressInfo * nat * run) * S :=
  match todo with
  | [] => ((seen, width, Finished), s)
  | addressInfo :: rest =>
      if active addressInfo then rescan (seen ++ [addressInfo]) rest width s
      else
        match probe addressInfo s with
        | (inr e, s) => ((seen ++ addressInfo :: rest, width, Threw e), s)
        | (inl a, s) =>
            let addressInfo := setActive a addressInfo in
            let width := if a then width else Datatypes.S width in
            if Nat.leb gap width
            then ((seen ++ addressInfo :: rest, width, Finished), s)
            else
              match after addressInfo s with
              | (inr e, s) =>
                  ((seen ++ addressInfo :: rest, width, Threw e), s)
              | (inl _, s) => rescan (seen ++ [addressInfo]) rest width s
              end
        end
  end.

(** The [while] loop that derives the next addresses, run for at most
    [fuel] iterations. *)
Fixpoint deriveNext (fuel : nat) (addresses : list AddressInfo) (width : nat)
    (s : S) : (list AddressInfo * nat * run) * S :=
  if Nat.leb gap width then ((addresses, width, Finished), s)
  else
    match fuel with
    | O => ((addresses, width, Unfinished), s)
    | Datatypes.S fuel =>
        let index_ := List.length addresses in
        let addressInfo := newAddressInfo index_ in
        match probe addressInfo s with
        | (inr e, s) => ((addresses, width, Threw e), s)
        | (inl a, s) =>
            let addressInfo := setActive a addressInfo in
            let addresses := addresses ++ [addressInfo] in
            let width := if a then width else Datatypes.S width in
            if Nat.leb gap width then ((addresses, width, Finished), s)
            else
              match after addressInfo s with
              | (inr e, s) => ((addresses, width, Threw e), s)
              | (inl _, s) => deriveNext fuel addresses width s
              end
        end
    end.

(** The two loops on one chain, with [inactiveAddressGapWidth] starting
    at 0. *)
Definition scanChain (fuel : nat) (addresses : list AddressInfo) (s : S)
    : (list AddressInfo * nat * run) * S :=
  match rescan [] addresses 0 s with
  | ((addresses, width, Finished), s) => deriveNext fuel addresses width s
  | stopped => stopped
  end.

End Scan.



(** The entries of the indices [from], ..., [from + n - 1], with the
    activity [act] of each index. *)
Definition derivedEntries (newAddressInfo : nat -> AddressInfo)
    (act : nat -> bool) (from n : nat) : list AddressInfo :=
  map (fun i => setActive (act i) (newAddressInfo i)) (seq from n).

(** *** The watcher of this wallet *)

(** A BIP32 node of BitcoinJS. *)
Class Bip32 (Node : Type) : Type := {
  derive : Node -> Z -> Node;
  publicKey : Node -> list byte
}.

Record t : Type := {
  ext_addresses : list AddressInfo;
  int_addresses : list AddressInfo;
  txs : list (string * PlainTransaction)
}.

Section Watcher.
Context {Network : Type} {lib : BitcoinJS Network}.
Context {World : Type} {socket : Socket World}.
Context {Node : Type} {bip32 : Bip32 Node}.
Variable network : Network.

(** [nodeToNestedWitnessScriptPubKey(node)] *)
Definition nodeToNestedWitnessScriptPubKey (node : Node) : list byte :=
  output (p2sh (p2wpkh (Buffer (publicKey node)) network)).

(** [scriptPubKeyToAddress(script)] *)
Definition scriptPubKeyToAddress (script_ : list byte) : string :=
  fromOutputScript script_ network.

(** [fetchTxHistory(scriptPubKey)], on [this.txs] and the world. *)
Definition fetchTxHistory (scriptPubKey_ : list byte)
    (s : list (string * PlainTransaction) * World)
    : result nat * (list (string * PlainTransaction) * World) :=
  let '(txs_, w) := s in
  match getHistory network (inr scriptPubKey_) w with
  | (inr e, w) => (inr e, (txs_, w))
  | (inl fetched, w) =>
      let txsObj := fold_left (fun o tx => objSet (txid tx) tx o) fetched [] in
      (inl (List.length fetched), (objSpread txs_ txsObj, w))
  end.

(** [updateAddressInfoActivity(addressInfo)] *)
Definition updateAddressInfoActivity (addressInfo : AddressInfo)
    (s : list (string * PlainTransaction) * World)
    : result bool * (list (string * PlainTransaction) * World) :=
  match fetchTxHistory (scriptPubKey addressInfo) s with
  | (inl txCount, s) => (inl (Nat.ltb 0 txCount), s)
  | (inr e, s) => (inr e, s)
  end.

(** The entry derived at [index] on a chain (0 external, 1 internal). *)
Definition deriveAddressInfo (xPub : Node) (chain : Z) (index_ : nat)
    : AddressInfo :=
  let node := derive (derive xPub chain) (Z.of_nat index_) in
  let scriptPubKey_ := nodeToNestedWitnessScriptPubKey node in
  {| scriptPubKey := scriptPubKey_;
     ai_address := scriptPubKeyToAddress scriptPubKey_;
     ai_index := index_;
     active := false |}.

Definition scanChainOf (fuel : nat) (xPub : Node) (chain : Z)
    (addresses : list AddressInfo)
    (s : list (string * PlainTransaction) * World) :=
  scanChain updateAddressInfoActivity (fun _ s => (inl tt, s))
    (deriveAddressInfo xPub chain) INACTIVE_ADDRESS_GAP fuel addresses s.

(** The watcher [accountExtPubKey(xPub, oldXPub)]; [None] is [null]. *)
Definition accountExtPubKey (fuel : nat) (xPub oldXPub : option Node)
    (wallet : t) (w : World) : (t * run) * World :=
  match xPub with
  | None => ((wallet, Finished), w)
  | Some xPub =>
      let wallet :=
        match oldXPub with
        | Some _ => {| ext_addresses := []; int_addresses := []; txs := [] |}
        | None => wallet
        end in
      match scanChainOf fuel xPub 0 (ext_addresses wallet) (txs wallet, w) with
      | ((ext, _, Finished), (txs_, w)) =>
          match scanChainOf fuel xPub 1 (int_addresses wallet) (txs_, w) with
          | ((int, _, r), (txs_, w)) =>
              (({| ext_addresses := ext; int_addresses := int;
                   txs := txs_ |}, r), w)
          end
      | ((ext, _, r), (txs_, w)) =>
          (({| ext_addresses := ext; int_addresses := int_addresses wallet;
               txs := txs_ |}, r), w)
      end
  end.

End Watcher.

(** *** [updateTransaction]

    The method is written for any key of [partialTx], so a record is its
    list of properties here. *)

Definition object : Type := list (string * json).

(** [updateTransaction(partialTx)] on [this.txs]. *)
Definition updateTransaction (partialTx : object)
    (txs_ : list (string * object)) : result (list (string * object)) :=
  let key := propertyKey (assoc "txid" partialTx) in
  let fields :=
    List.filter (fun kv => negb (String.eqb (fst kv) "txid")) partialTx in
  match assoc key txs_ with
  | Some tx =>
      inl (objSet key
             (fold_left (fun tx kv => objSet (fst kv) (snd kv) tx) fields tx)
             txs_)
  | None =>
      match fields with
      | [] => inl txs_
      | _ => inr TypeError
      end
  end.

End Wallet.

(* ===================================================================== *)
(** ** The wallet on SmartBit ([wallet.js]): the ledger methods *)
(* ===================================================================== *)

Module SmartBitWallet.
Import Js ElectrumWS Wallet.

(** A record of [this.txs]: its properties, and whether
    [Object.freeze] was applied to it. *)
Record Stored : Type := {
  frozen : bool;
  props : object
}.

Record t : Type := {
  ext_addresses : list AddressInfo;
  int_addresses : list AddressInfo;
  txs : list (string * Stored)
}.

(** [list.find(addrInfo => addrInfo.address === a)] followed by
    [addressInfo.active = true] on the entry found; [None] when there is
    none. *)
Fixpoint markActive (a : string) (l : list AddressInfo)
    : option (list AddressInfo) :=
  match l with
  | [] => None
  | addrInfo :: rest =>
      if String.eqb (ai_address addrInfo) a
      then Some (setActive true addrInfo :: rest)
      else option_map (cons addrInfo) (markActive a rest)
  end.

(** The body of the loop of [addTransaction] for one [output]. Reading
    [output.address] happens in the callback of [find], so it throws on
    [null] only when a list has an entry to test. *)
Definition markOutput (output_ : json) (ext int : list AddressInfo)
    : (list AddressInfo * list AddressInfo) * completion :=
  match output_ with
  | JNull =>
      match ext, int with
      | [], [] => ((ext, int), Normal)
      | _, _ => ((ext, int), Throws TypeError)
      end
  | _ =>
      match getProp "address" output_ with
      | Some (JStr a) =>
          match markActive a ext with
          | Some ext => ((ext, int), Normal)
          | None =>
              match markActive a int with
              | Some int => ((ext, int), Normal)
              | None => ((ext, int), Normal)
              end
          end
      | _ => ((ext, int), Normal)
      end
  end.

Fixpoint markOutputs (outputs_ : list json) (ext int : list AddressInfo)
    : (list AddressInfo * list AddressInfo) * completion :=
  match outputs_ with
  | [] => ((ext, int), Normal)
  | output_ :: rest =>
      match markOutput output_ ext int with
      | ((ext, int), Normal) => markOutputs rest ext int
      | stopped => stopped
      end
  end.

(** [addTransaction(tx)] *)
Definition addTransaction (tx : object) (wallet : t) : t * completion :=
  match assoc "outputs" tx ≫= spread with
  | None => (wallet, Throws TypeError)
  | Some outputs_ =>
      match markOutputs outputs_ (ext_addresses wallet) (int_addresses wallet)
      with
      | ((ext, int), Normal) =>
          let isFrozen :=
            match assoc "block_height" tx with
            | Some h => truthy h
            | None => false
            end in
          ({| ext_addresses := ext; int_addresses := int;
              txs := objSet (propertyKey (assoc "txid" tx))
                            {| frozen := isFrozen; props := tx |}
                            (txs wallet) |}, Normal)
      | ((ext, int), stopped) =>
          ({| ext_addresses := ext; int_addresses := int;
              txs := txs wallet |}, stopped)
      end
  end.

(** [updateTransaction(partialTx)]:
    [{ ...this.txs[partialTx.txid], partialTx }] handed to
    [addTransaction]. *)
Definition updateTransaction (partialTx : object) (wallet : t)
    : t * completion :=
  let stored :=
    match assoc (propertyKey (assoc "txid" partialTx)) (txs wallet) with
    | Some record => props record
    | None => []
    end in
  let tx := objSet "partialTx" (JObj partialTx) stored in
  addTransaction tx wallet.

End SmartBitWallet.

(* ===================================================================== *)
(** ** Sample states and messages *)
(* ===================================================================== *)

Module Samples.
Import Js ElectrumWS ElectrumApi Wallet.

(** The socket after [request('server.ping')] drew the id 7 and after a
    subscription to the headers was registered under callback 0. *)
Definition pinging : ElectrumWS.t :=
  {| _requests := {[ 7%Z := 0 ]};
     _subscriptions := {[ "blockchain.headers.subscribe" := 0 ]};
     ElectrumWS.promises := [Pending];
     sent := [JObj [("jsonrpc", JStr "2.0"); ("method", JStr "server.ping");
                    ("params", JArr []); ("id", JNum 7)]];
     calls := [] |}.

Definition pong : json := JObj [("id", JNum 7); ("result", JNull)].

(** A response with a [result] and an [error]. *)
Definition resultAndError : json :=
  JObj [("id", JNum 7); ("result", JStr "ok"); ("error", JStr "boom")].


(** A pushed notification. *)
Definition headerPush : json :=
  JObj [("method", JStr "blockchain.headers.subscribe");
        ("params", JArr [JObj [("height", JNum 5)]])].


(** *** A keychain for the scan *)


Definition bareAddressInfo (index_ : nat) : AddressInfo :=
  {| scriptPubKey := []; ai_address := numberToString (Z.of_nat index_);
     ai_index := index_; active := false |}.

(** The activity of an entry is that of its index: [history i] tells
    whether the address of index [i] has a transaction. *)
Definition probeBy (history : nat -> bool) (addressInfo : AddressInfo)
    (s : unit) : ElectrumApi.result bool * unit :=
  (inl (history (ai_index addressInfo)), s).

Definition nothingAfter (addressInfo : AddressInfo) (s : unit)
    : ElectrumApi.result unit * unit :=
  (inl tt, s).

(** Indices 0, 1 and 2 are active, index 3 and the following are not. *)
Definition threeActive (i : nat) : bool := Nat.ltb i 3.


(** *** A ledger with one unconfirmed record, and the update that
    attaches its block *)

Definition unconfirmedRecord : object :=
  [("txid", JStr "T"); ("outputs", JArr []); ("fee", JNum 250);
   ("block_height", JNull)].

Definition minedUpdate : object :=
  [("txid", JStr "T"); ("block_height", JNum 100);
   ("block_time", JNum 1600000000)].

Definition smartBitWallet : SmartBitWallet.t :=
  {| SmartBitWallet.ext_addresses := [];
     SmartBitWallet.int_addresses := [];
     SmartBitWallet.txs :=
       [("T", {| SmartBitWallet.frozen := false;
                 SmartBitWallet.props := unconfirmedRecord |})] |}.

(** *** Two records, the second spending output 0 of the first *)

Definition addressX : AddressInfo :=
  {| scriptPubKey := []; ai_address := "X"; ai_index := 0; active := true |}.

Definition recordA : PlainTransaction :=
  {| txid := "A"; inputs := [];
     outputs := [ {| po_script := []; po_address := "X"; po_value := 10;
                     po_index := 0 |};
                  {| po_script := []; po_address := "X"; po_value := 5;
                     po_index := 1 |} ];
     version := 2; vsize := 100; isCoinbase := false; weight := 400;
     block_hash := None; block_height := None; block_time := None |}.

Definition recordB : PlainTransaction :=
  {| txid := "B";
     inputs := [ {| pi_script := []; pi_txid := "A"; pi_address := "X";
                    pi_witness := []; pi_index := 0; pi_output_index := 0 |} ];
     outputs := [ {| po_script := []; po_address := "elsewhere";
                     po_value := 9; po_index := 0 |} ];
     version := 2; vsize := 100; isCoinbase := false; weight := 400;
     block_hash := None; block_height := None; block_time := None |}.

(** *** A library and a server to run the facade on *)


Fixpoint describe (p : payment unit) : string :=
  match p with
  | p2pkh _ _ => "p2pkh"
  | p2wpkh _ _ => "p2wpkh"
  | p2ms m _ _ => "p2ms/" +++ numberToString m
  | p2sh redeem => "p2sh-" +++ describe redeem
  | p2wsh redeem => "p2wsh-" +++ describe redeem
  end.

(** A script decompiles to one chunk a byte; the output script of a
    nested witness payment is its public key; a transaction in hex
    decodes to a transaction without inputs and outputs whose id is the
    hex; the empty string does not decode. *)
Definition toyLib : BitcoinJS unit := {|
  decompile item :=
    match item with
    | Buffer bytes => map (fun b => Buffer [b]) bytes
    | Opcode _ => []
    end;
  address := describe;
  output p :=
    match p with
    | p2sh (p2wpkh (Buffer pubkey) _) => pubkey
    | _ => []
    end;
  fromOutputScript script_ _ := Hex.bytesToHex script_;
  Transaction_fromHex raw :=
    match raw with
    | EmptyString => inr (Error "cannot decode")
    | _ => inl {| getId := raw; ins := []; outs := []; tx_version := 2;
                  virtualSize := 100; tx_isCoinbase := false;
                  tx_weight := 400 |}
    end;
  Block_fromHex raw :=
    inl {| blk_getId := raw; blk_timestamp := 1600000000;
           blk_prevHash := []; blk_bits := 0; blk_nonce := 0;
           blk_version := 1; blk_merkleRoot := []; blk_weight := 0 |};
  sha256 bytes := bytes
|}.

(** A server whose world is the log of the requests it received. It
    answers every history request with [history], has the header of a
    height unless [noHeader] says so, has the transaction of a hash unless
    [noTransaction] says so, and answers a broadcast with [broadcastId]. *)
Definition toySocket (history : list Receipt) (noHeader : Z -> bool)
    (noTransaction : string -> bool) (broadcastId : json)
    : Socket (list string) := {|
  scripthash_get_history _ w := (inl history, w ++ ["get_history"]);
  block_header h w :=
    (if noHeader h then inr (Error "no header")
     else inl ("header" +++ numberToString h),
     w ++ ["header " +++ numberToString h]);
  transaction_get hash_ w :=
    (if noTransaction hash_ then inr (Error "no transaction") else inl hash_,
     w ++ ["get " +++ hash_]);
  transaction_broadcast raw w := (inl broadcastId, w ++ ["broadcast " +++ raw])
|}.

(** A keychain whose nodes are their paths and whose public keys are the
    bytes of the path. *)
Definition pathNodes : Bip32 (list Z) := {|
  derive node i := node ++ [i];
  publicKey node := map (fun i => Hex.toUint8 (Some i)) node
|}.

(** A server that knows one transaction for each of the external
    addresses 0, 1 and 2 of that keychain, and none for any other. *)
Definition threeUsedAddresses : Socket (list string) := {|
  scripthash_get_history scripthash w :=
    (inl (if includes scripthash ["0000"; "0100"; "0200"]
          then [ {| tx_hash := "tx" +++ scripthash; height := None |} ]
          else []),
     w ++ ["get_history " +++ scripthash]);
  block_header h w := (inr (Error "no header"), w);
  transaction_get hash_ w := (inl hash_, w);
  transaction_broadcast raw w := (inr (Error "not connected"), w)
|}.

Definition threeReceipts : list Receipt :=
  [ {| tx_hash := "aa"; height := Some 500%Z |};
    {| tx_hash := "bb"; height := None |};
    {| tx_hash := "cc"; height := Some 300%Z |} ].

End Samples.

(* ===================================================================== *)
(** ** Hex text, for the statements about the hex helpers *)
(* ===================================================================== *)

Module HexText.

(** A digit of radix 16, in either case. *)
Definition isHexDigit (c : ascii) : bool :=
  match Hex.hexValue c with
  | Some _ => true
  | None => false
  end.

(** [c.toLowerCase()] for the letters [A] to [Z]. *)
Definition lowerChar (c : ascii) : ascii :=
  let n := N_of_ascii c in
  if N.leb 65 n && N.leb n 90 then ascii_of_N (n + 32) else c.

Fixpoint lowerCase (s : string) : string :=
  match s with
  | EmptyString => EmptyString
  | String c rest => String (lowerChar c) (lowerCase rest)
  end.

End HexText.

(* ===================================================================== *)
(** ** The records of a history, for the statements about [getHistory] *)
(* ===================================================================== *)

Module History.
Import ElectrumApi.

(** A record that [getHistory] may return for the receipts [entries]:
    without block fields, or with the positive height of one of the
    receipts and the hash and time of a block. *)
Definition recordOf (entries : list Receipt) (tx : PlainTransaction) : Prop :=
  (block_height tx = None /\ block_hash tx = None /\ block_time tx = None)
  \/ exists entry h,
       In entry entries /\ height entry = Some h /\ (0 < h)%Z
       /\ block_height tx = Some h
       /\ block_hash tx <> None /\ block_time tx <> None.

End History.

(* ===================================================================== *)
(** ** The wallet on [ElectrumApi]: the other computed properties and
    methods *)
(* ===================================================================== *)

Module Ledger.
Import Js ElectrumApi Wallet.

(** The entry [b] is the entry [a] at a later time: the same script,
    address and index, and active if [a] was. *)
Definition laterEntry (a b : AddressInfo) : Prop :=
  scriptPubKey b = scriptPubKey a /\ ai_address b = ai_address a
  /\ ai_index b = ai_index a /\ (active a = true -> active b = true).

(** The list [l] has an active entry of the address [a]. *)
Definition activeAt (a : string) (l : list AddressInfo) : Prop :=
  exists addressInfo,
    In addressInfo l /\ ai_address addressInfo = a
    /\ active addressInfo = true.


(** [nextChangeAddress] *)
Definition nextChangeAddress (wallet : Wallet.t) : option AddressInfo :=
  List.find (fun addressInfo => negb (active addressInfo))
            (int_addresses wallet).

(** The loop of [addTransaction]: the entry of the address of each output
    is looked for in the external list first, then in the internal one,
    and is made active. *)
Fixpoint markOutputs (outputs_ : list PlainOutput)
    (ext int : list AddressInfo) : list AddressInfo * list AddressInfo :=
  match outputs_ with
  | [] => (ext, int)
  | output_ :: rest =>
      match SmartBitWallet.markActive (po_address output_) ext with
      | Some ext => markOutputs rest ext int
      | None =>
          match SmartBitWallet.markActive (po_address output_) int with
          | Some int => markOutputs rest ext int
          | None => markOutputs rest ext int
          end
      end
  end.

(** [addTransaction(tx)] *)
Definition addTransaction (tx : PlainTransaction) (wallet : Wallet.t)
    : Wallet.t :=
  let '(ext, int) :=
    markOutputs (outputs tx) (ext_addresses wallet) (int_addresses wallet) in
  {| ext_addresses := ext; int_addresses := int;
     txs := objSet (txid tx) tx (txs wallet) |}.

(** [knownTx.block_height !== entry.height] negated: [null] and a missing
    height are equal to nothing. *)
Definition sameHeight (block_height_ height_ : option Z) : bool :=
  match block_height_, height_ with
  | Some a, Some b => (a =? b)%Z
  | _, _ => false
  end.



(** The first loop of [onStatusChanged(status)]: the entries of
    transactions not known yet and those of known transactions whose
    height differs; [status === null] gives none. *)
Definition classifyStatus (status : option (list Receipt))
    (txs_ : list (string * PlainTransaction))
    : list Receipt * list Receipt :=
  match status with
  | None => ([], [])
  | Some entries =>
      fold_left
        (fun '(newTxs, changedTxs) entry =>
           match assoc (tx_hash entry) txs_ with
           | None => (newTxs ++ [entry], changedTxs)
           | Some knownTx =>
               if sameHeight (block_height knownTx) (height entry)
               then (newTxs, changedTxs)
               else (newTxs, changedTxs ++ [entry])
           end)
        entries ([], [])
  end.




End Ledger.

(* ===================================================================== *)
(** ** The wallet on SmartBit ([wallet.js]): the message after a
    broadcast *)
(* ===================================================================== *)

Module SmartBitUi.
Import Js ElectrumApi.

(** ToString of a value that may be [undefined]. *)
Definition stringOf (v : option json) : string :=
  match v with
  | Some v => toString v
  | None => "undefined"
  end.

(** The argument of [alert] in [broadcastTransaction], for the
    [response] of [SmartBit.pushTx]:
    ['Broadcast: ' + response.success ? response.txid
                                      : response.error.message]. *)
Definition broadcastAlert (response : json) : result (option json) :=
  match response with
  | JNull => inr TypeError
  | _ =>
      if truthy (JStr ("Broadcast: " +++ stringOf (getProp "success" response)))
      then inl (getProp "txid" response)
      else
        match getProp "error" response with
        | None | Some JNull => inr TypeError
        | Some error => inl (getProp "message" error)
        end
  end.

End SmartBitUi.

(* ===================================================================== *)
(** ** More sample servers *)
(* ===================================================================== *)

Module Scenarios.
Import Js ElectrumApi.

(** A server that rejects every request. *)
Definition offline : Socket (list string) := {|
  scripthash_get_history scripthash w :=
    (inr (Error "offline"), w ++ ["get_history " +++ scripthash]);
  block_header h w := (inr (Error "offline"), w);
  transaction_get hash_ w := (inr (Error "offline"), w);
  transaction_broadcast raw w := (inr (Error "offline"), w)
|}.

End Scenarios.

(* ===================================================================== *)
(** * Facts about the hex helpers *)
(* ===================================================================== *)

Section HexFacts.
Import Hex.

Example bytesToHex_sample :
  bytesToHex [x00; x0f; xa4; xff] = "000fa4ff".
Proof. reflexivity. Qed.

Example hexToBytes_sample :
  hexToBytes "000fa4ff" = [x00; x0f; xa4; xff].
Proof. reflexivity. Qed.

(** Quirks of [parseInt] that the model keeps: a sign, a [0x] prefix and a
    trailing non-digit. *)
Example hexToBytes_quirks :
  hexToBytes "-10x1gzz" = [xff; x00; x01; x00].
Proof. reflexivity. Qed.

Lemma append_nil_l (b : string) : "" +++ b = b.
Proof. reflexivity. Qed.

Lemma append_cons (x : ascii) (a b : string) :
  String x a +++ b = String x (a +++ b).
Proof. reflexivity. Qed.

Lemma append_assoc (a b c : string) : (a +++ b) +++ c = a +++ (b +++ c).
Proof.
  induction a as [|x a IH]; [reflexivity|].
  now rewrite !append_cons, IH.
Qed.

Lemma append_empty_r (a : string) : a +++ "" = a.
Proof.
  induction a as [|x a IH]; [reflexivity|]. now rewrite append_cons, IH.
Qed.

Lemma fold_hex_acc (bytes : list byte) (acc : string) :
  fold_left (fun hex code => hex +++ hexOfByte code) bytes acc
  = acc +++ bytesToHex bytes.
Proof.
  unfold bytesToHex. revert acc.
  induction bytes as [|b bs IH]; intros acc; cbn [fold_left].
  - now rewrite append_empty_r.
  - rewrite IH, (IH ("" +++ hexOfByte b)).
    rewrite append_nil_l. apply append_assoc.
Qed.

Lemma bytesToHex_cons (b : byte) (bs : list byte) :
  bytesToHex (b :: bs) = hexOfByte b +++ bytesToHex bs.
Proof. unfold bytesToHex at 1. simpl. apply fold_hex_acc. Qed.

(** Every byte prints as two lower-case digits that read back as it. *)
Lemma hexOfByte_spec (b : byte) :
  exists c1 c2,
    hexOfByte b = String c1 (String c2 EmptyString)
    /\ dot c1 && dot c2 = true
    /\ isLowerHexChar c1 && isLowerHexChar c2 = true
    /\ toUint8 (parseInt16 (String c1 (String c2 EmptyString))) = b.
Proof.
  destruct b; do 2 eexists; (split; [reflexivity|]);
    repeat split; reflexivity.
Qed.

Lemma allChars_app (p : ascii -> bool) (a b : string) :
  allChars p (a +++ b) = allChars p a && allChars p b.
Proof.
  induction a as [|x a IH]; [reflexivity|].
  rewrite append_cons. cbn [allChars]. now rewrite IH, andb_assoc.
Qed.

(** C10: the hex codec round-trips: for every byte array [b],
    [hexToBytes (bytesToHex b) = b], and [bytesToHex b] is a string of
    lower-case hex digits of length exactly twice the length of [b]. *)
Theorem hex_roundtrip (b : list byte) :
  hexToBytes (bytesToHex b) = b
  /\ String.length (bytesToHex b) = 2 * List.length b
  /\ allChars isLowerHexChar (bytesToHex b) = true.
Proof.
  induction b as [|x xs [IHr [IHl IHc]]].
  - repeat split.
  - rewrite bytesToHex_cons.
    destruct (hexOfByte_spec x) as (c1 & c2 & -> & Hdot & Hlow & Hval).
    apply andb_prop in Hlow as [Hl1 Hl2].
    repeat split.
    + unfold hexToBytes in *. rewrite !append_cons, append_nil_l.
      cbn [matchPairs]. rewrite Hdot. cbn [map]. rewrite Hval. now f_equal.
    + rewrite !append_cons, append_nil_l. cbn [String.length].
      rewrite IHl. cbn [List.length]. lia.
    + rewrite !append_cons, append_nil_l. cbn [allChars].
      now rewrite Hl1, Hl2, IHc.
Qed.

End HexFacts.

Section JsFacts.
Import Js.

Example toString_samples :
  toString (JNum 0) = "0" /\ toString (JNum (-12)) = "-12"
  /\ toString (JArr [JNum 1; JNull; JStr "a"]) = "1,,a"
  /\ toString (JObj [("a", JNull)]) = "[object Object]".
Proof. repeat split. Qed.

Example endsWith_samples :
  endsWith "blockchain.headers.subscribe" "subscribe" = true
  /\ endsWith "server.ping" "subscribe" = false
  /\ endsWith "scribe" "subscribe" = false.
Proof. repeat split. Qed.

End JsFacts.

(* ===================================================================== *)
(** * Facts about the socket class *)
(* ===================================================================== *)

Section ElectrumWSFacts.
Import Js ElectrumWS.

Lemma settle_requests p o ws : _requests (settle p o ws) = _requests ws.
Proof. unfold settle. destruct (promises ws !! p) as [[]|]; reflexivity. Qed.


Lemma settle_pending p o ws :
  promises ws !! p = Some Pending ->
  promises (settle p o ws) = <[p := o]> (promises ws).
Proof. unfold settle. intros ->. reflexivity. Qed.

Lemma settle_not_pending p o ws :
  promises ws !! p <> Some Pending -> settle p o ws = ws.
Proof.
  unfold settle. destruct (promises ws !! p) as [[]|]; congruence.
Qed.

(** The second [if] touches neither the pending requests nor a promise. *)
Lemma routeSubscription_frame response ws :
  _requests (fst (routeSubscription response ws)) = _requests ws
  /\ promises (fst (routeSubscription response ws)) = promises ws.
Proof.
  unfold routeSubscription.
  destruct (getProp "method" response) as [[]|]; try (split; reflexivity).
  destruct (endsWith _ _); [|split; reflexivity].
  destruct (getProp "params" response) as [params|]; [|split; reflexivity].
  destruct params; try (split; reflexivity);
    destruct (_subscriptions ws !! _); try (split; reflexivity);
    cbn [spread]; split; reflexivity.
Qed.


(** A message that answers no pending request leaves the first [if]
    without effect. *)
Lemma settleRequest_none response ws :
  pendingFor response ws = None -> settleRequest response ws = ws.
Proof. unfold settleRequest. intros ->. reflexivity. Qed.

Lemma settleRequest_some response ws id p :
  pendingFor response ws = Some (id, p) ->
  settleRequest response ws
  = settle p (outcomeOf response) (set_requests (delete id (_requests ws)) ws).
Proof.
  unfold settleRequest, outcomeOf. intros ->.
  destruct (getProp "result" response); reflexivity.
Qed.

Lemma pendingFor_some response ws id p :
  getProp "id" response = Some (JNum id) ->
  _requests ws !! id = Some p ->
  pendingFor response ws = Some (id, p).
Proof. unfold pendingFor. intros -> ->. reflexivity. Qed.

Lemma pendingFor_absent response ws id :
  getProp "id" response = Some (JNum id) ->
  _requests ws !! id = None ->
  pendingFor response ws = None.
Proof. unfold pendingFor. intros -> ->. reflexivity. Qed.

Lemma onMessage_object response ws :
  getProp "id" response <> None \/ getProp "method" response <> None ->
  _onMessage response ws
  = routeSubscription response (settleRequest response ws).
Proof.
  destruct response; cbn [getProp]; try reflexivity; intros [H|H]; congruence.
Qed.

Lemma outcomeOf_not_pending response : outcomeOf response <> Pending.
Proof. unfold outcomeOf. destruct (getProp "result" response); discriminate. Qed.

(** *** The invariant of the class *)

Lemma consistent_empty : consistent empty.
Proof.
  split; cbn [_requests promises empty]; intros *; rewrite lookup_empty;
    discriminate.
Qed.

Lemma pickId_fresh draws requests id :
  pickId draws requests = Some id -> requests !! id = None.
Proof.
  induction draws as [|d rest IH]; cbn [pickId]; [discriminate|].
  destruct (requests !! d) eqn:Hd; [exact IH|].
  intros [= <-]. exact Hd.
Qed.

(** [request] registers a promise that is pending, under an id that was
    not in flight. *)
Lemma request_consistent draws method params ws p ws' :
  consistent ws ->
  request draws method params ws = Some (p, ws') ->
  consistent ws'
  /\ promises ws' !! p = Some Pending
  /\ exists id, _requests ws !! id = None /\ _requests ws' !! id = Some p.
Proof.
  intros [Hpend Hinj]. unfold request.
  destruct (pickId draws (_requests ws)) as [id|] eqn:Hid; [|discriminate].
  apply pickId_fresh in Hid. intros [= <- <-].
  cbn [_requests promises].
  assert (Hnew : (promises ws ++ [Pending]) !! List.length (promises ws)
                 = Some Pending).
  { rewrite lookup_app_r by reflexivity.
    now rewrite Nat.sub_diag. }
  split; [split|split]; cbn [_requests promises].
  - intros id' p'. rewrite lookup_insert.
    destruct (decide (id = id')) as [->|Hne].
    + intros [= <-]. exact Hnew.
    + intros H. pose proof (Hpend _ _ H) as Hp.
      rewrite lookup_app_l by (apply lookup_lt_Some in Hp; exact Hp).
      exact Hp.
  - intros id1 id2 p'. rewrite !lookup_insert.
    destruct (decide (id = id1)) as [E1|H1], (decide (id = id2)) as [E2|H2].
    + congruence.
    + intros [= <-] H. apply Hpend, lookup_lt_Some in H. lia.
    + intros H [= <-]. apply Hpend, lookup_lt_Some in H. lia.
    + apply Hinj.
  - exact Hnew.
  - exists id. split; [exact Hid|]. apply lookup_insert_eq.
Qed.

Lemma routeSubscription_consistent response ws :
  consistent ws -> consistent (fst (routeSubscription response ws)).
Proof.
  destruct (routeSubscription_frame response ws) as [Hr Hp].
  unfold consistent. rewrite Hr, Hp. trivial.
Qed.

Lemma onMessage_consistent response ws :
  consistent ws -> consistent (fst (_onMessage response ws)).
Proof.
  intros Hc.
  assert (Hs : consistent (settleRequest response ws)).
  { destruct (pendingFor response ws) as [[id p]|] eqn:Hfor.
    - rewrite (settleRequest_some _ _ _ _ Hfor).
      destruct Hc as [Hpend Hinj].
      assert (Hreq : _requests ws !! id = Some p).
      { unfold pendingFor in Hfor.
        destruct (getProp "id" response) as [[]|]; try discriminate.
        destruct (_requests ws !! n) eqn:Hn; [|discriminate].
        injection Hfor as <- <-. exact Hn. }
      split; rewrite settle_requests; cbn [_requests set_requests].
      + intros id' p' H. rewrite lookup_delete in H.
        destruct (decide (id = id')) as [->|Hne]; [discriminate|].
        rewrite settle_pending by (apply (Hpend _ _ Hreq)).
        cbn [promises set_requests].
        rewrite list_lookup_insert_ne; [exact (Hpend _ _ H)|].
        intros <-. apply Hne. exact (Hinj _ _ _ Hreq H).
      + intros id1 id2 p'. rewrite !lookup_delete.
        destruct (decide (id = id1)), (decide (id = id2)); try discriminate.
        apply Hinj.
    - rewrite settleRequest_none by exact Hfor. exact Hc. }
  destruct response; cbn [_onMessage fst]; try exact Hc;
    apply routeSubscription_consistent; exact Hs.
Qed.

(** C5: the first response that carries the id of an in-flight request
    settles the promise of the request and removes the id from the map of
    pending requests in the same step; a second response with the same id
    changes neither the map nor any promise. *)
Theorem onMessage_settles_once (ws : t) (id : Z) (callbacks : promiseRef)
    (first second : json) :
  consistent ws ->
  _requests ws !! id = Some callbacks ->
  getProp "id" first = Some (JNum id) ->
  getProp "id" second = Some (JNum id) ->
  let ws1 := fst (_onMessage first ws) in
  let ws2 := fst (_onMessage second ws1) in
  _requests ws1 = delete id (_requests ws)
  /\ promises ws1 = <[callbacks := outcomeOf first]> (promises ws)
  /\ promises ws1 !! callbacks = Some (outcomeOf first)
  /\ outcomeOf first <> Pending
  /\ _requests ws2 = _requests ws1
  /\ promises ws2 = promises ws1.
Proof.
  intros [Hpend _] Hreq Hfirst Hsecond ws1 ws2.
  pose proof (Hpend _ _ Hreq) as Hp.
  assert (H1 : _requests ws1 = delete id (_requests ws)).
  { subst ws1. rewrite onMessage_object by (left; congruence).
    rewrite (proj1 (routeSubscription_frame _ _)).
    rewrite (settleRequest_some _ _ _ _ (pendingFor_some _ _ _ _ Hfirst Hreq)).
    rewrite settle_requests. reflexivity. }
  assert (H2 : promises ws1 = <[callbacks := outcomeOf first]> (promises ws)).
  { subst ws1. rewrite onMessage_object by (left; congruence).
    rewrite (proj2 (routeSubscription_frame _ _)).
    rewrite (settleRequest_some _ _ _ _ (pendingFor_some _ _ _ _ Hfirst Hreq)).
    rewrite settle_pending by exact Hp. reflexivity. }
  assert (Hgone : pendingFor second ws1 = None).
  { apply (pendingFor_absent _ _ id Hsecond). rewrite H1.
    apply lookup_delete_eq. }
  repeat split; try assumption.
  - rewrite H2. apply list_lookup_insert_eq.
    apply lookup_lt_Some in Hp. exact Hp.
  - apply outcomeOf_not_pending.
  - subst ws2. rewrite onMessage_object by (left; congruence).
    rewrite (proj1 (routeSubscription_frame _ _)).
    rewrite settleRequest_none by exact Hgone. reflexivity.
  - subst ws2. rewrite onMessage_object by (left; congruence).
    rewrite (proj2 (routeSubscription_frame _ _)).
    rewrite settleRequest_none by exact Hgone. reflexivity.
Qed.

Lemma pinging_consistent : consistent Samples.pinging.
Proof.
  split; cbn [_requests promises Samples.pinging].
  - intros id p H. apply lookup_singleton_Some in H as [<- <-]. reflexivity.
  - intros id1 id2 p H1 H2.
    apply lookup_singleton_Some in H1 as [<- _].
    apply lookup_singleton_Some in H2 as [<- _]. reflexivity.
Qed.

Lemma onMessage_settles_once_witness :
  let ws1 := fst (_onMessage Samples.pong Samples.pinging) in
  let ws2 := fst (_onMessage Samples.resultAndError ws1) in
  _requests ws1 = delete 7%Z (_requests Samples.pinging)
  /\ promises ws1
     = <[0 := outcomeOf Samples.pong]> (promises Samples.pinging)
  /\ promises ws1 !! 0 = Some (outcomeOf Samples.pong)
  /\ outcomeOf Samples.pong <> Pending
  /\ _requests ws2 = _requests ws1
  /\ promises ws2 = promises ws1.
Proof.
  apply (onMessage_settles_once Samples.pinging 7%Z 0
           Samples.pong Samples.resultAndError).
  - exact pinging_consistent.
  - reflexivity.
  - reflexivity.
  - reflexivity.
Defined.

(** C6, as the code has it: the promise of a pending request answered by
    [response] is rejected if and only if the response has no [result]
    field, with [response.error] as the message of the error when it is
    there and truthy and with [No result] otherwise; a response that has
    a [result] field resolves the promise with it, whether or not it has
    an [error] field too. *)
Theorem onMessage_rejects_iff_no_result (ws : t) (id : Z)
    (callbacks : promiseRef) (response : json) :
  consistent ws ->
  _requests ws !! id = Some callbacks ->
  getProp "id" response = Some (JNum id) ->
  let after := promises (fst (_onMessage response ws)) !! callbacks in
  after = Some (outcomeOf response)
  /\ ((exists e, after = Some (Rejected e))
      <-> getProp "result" response = None)
  /\ (forall result, getProp "result" response = Some result ->
        after = Some (Fulfilled result))
  /\ (getProp "result" response = None ->
      after = Some (Rejected (newError
                match getProp "error" response with
                | Some e => if truthy e then e else JStr "No result"
                | None => JStr "No result"
                end))).
Proof.
  intros [Hpend _] Hreq Hid after.
  pose proof (Hpend _ _ Hreq) as Hp.
  assert (Hafter : after = Some (outcomeOf response)).
  { subst after. rewrite onMessage_object by (left; congruence).
    rewrite (proj2 (routeSubscription_frame _ _)).
    rewrite (settleRequest_some _ _ _ _ (pendingFor_some _ _ _ _ Hid Hreq)).
    rewrite settle_pending by exact Hp.
    apply list_lookup_insert_eq. apply lookup_lt_Some in Hp. exact Hp. }
  split; [exact Hafter|]. rewrite Hafter. unfold outcomeOf.
  split; [|split].
  - destruct (getProp "result" response).
    + split; [intros [e He]; discriminate | discriminate].
    + split; [reflexivity | intros _; eexists; reflexivity].
  - intros result ->. reflexivity.
  - intros ->. reflexivity.
Qed.

Lemma onMessage_rejects_iff_no_result_witness :
  let after :=
    promises (fst (_onMessage Samples.resultAndError Samples.pinging)) !! 0 in
  after = Some (outcomeOf Samples.resultAndError)
  /\ ((exists e, after = Some (Rejected e))
      <-> getProp "result" Samples.resultAndError = None)
  /\ (forall result, getProp "result" Samples.resultAndError = Some result ->
        after = Some (Fulfilled result))
  /\ (getProp "result" Samples.resultAndError = None ->
      after = Some (Rejected (newError
                match getProp "error" Samples.resultAndError with
                | Some e => if truthy e then e else JStr "No result"
                | None => JStr "No result"
                end))).
Proof.
  apply (onMessage_rejects_iff_no_result Samples.pinging 7%Z 0
           Samples.resultAndError).
  - exact pinging_consistent.
  - reflexivity.
  - reflexivity.
Defined.

(** C6, as the claim states it, fails: the response
    [{id: 7, result: "ok", error: "boom"}] carries an [error] field, and
    the promise of request 7 is resolved with [ok], not rejected. *)
Lemma onMessage_error_field_not_rejected :
  let after :=
    promises (fst (_onMessage Samples.resultAndError Samples.pinging)) !! 0 in
  ~ ((exists e, after = Some (Rejected e))
     <-> (getProp "error" Samples.resultAndError <> None
          \/ getProp "result" Samples.resultAndError = None)).
Proof.
  intros after [_ H].
  destruct H as [e He]; [left; discriminate|].
  discriminate He.
Qed.




End ElectrumWSFacts.

(* ===================================================================== *)
(** * Facts about the chain query facade *)
(* ===================================================================== *)

Section ElectrumApiFacts.
Import Js ElectrumApi.
Context {Network : Type} {lib : BitcoinJS Network}.
Context {World : Type} {socket : Socket World}.
Variable network : Network.



(** C7: [broadcastTransaction] decodes the raw transaction first (a raw
    transaction that does not decode is never submitted), then submits
    it; an answer equal to the id computed from the decoding gives the
    decoded record; any other answer [T2] makes the call fail with
    [new Error(T2)], whose message is [T2] when [T2] is a string. *)
Theorem broadcastTransaction_checks_id (rawTx : string) (w : World) :
  (forall e, transactionToPlain network rawTx None = inr e ->
     broadcastTransaction network rawTx w = (inr e, w))
  /\ (forall tx, transactionToPlain network rawTx None = inl tx ->
      (forall e w', transaction_broadcast rawTx w = (inr e, w') ->
         broadcastTransaction network rawTx w = (inr e, w'))
      /\ (forall T2 w', transaction_broadcast rawTx w = (inl T2, w') ->
          (T2 = JStr (txid tx) ->
             broadcastTransaction network rawTx w = (inl tx, w'))
          /\ (T2 <> JStr (txid tx) ->
             broadcastTransaction network rawTx w = (inr (newError T2), w'))
          /\ (forall t2, T2 = JStr t2 -> t2 <> txid tx ->
             broadcastTransaction network rawTx w = (inr (Error t2), w')))).
Proof.
  unfold broadcastTransaction. split.
  - intros e ->. reflexivity.
  - intros tx ->. split.
    + intros e w' ->. reflexivity.
    + intros T2 w' ->. repeat split.
      * intros ->. now rewrite String.eqb_refl.
      * intros Hne. destruct T2; try reflexivity.
        destruct (String.eqb_spec s (txid tx)); [congruence | reflexivity].
      * intros t2 -> Hne.
        destruct (String.eqb_spec t2 (txid tx)); [congruence | reflexivity].
Qed.

(** *** [getHistory] *)

Lemma fetchBlockHeaders_fail h rest m w e w' :
  getBlockHeader h w = (inr e, w') ->
  fetchBlockHeaders (h :: rest) m w = (m, w').
Proof. cbn [fetchBlockHeaders]. intros ->. reflexivity. Qed.

Lemma fetchBlockHeaders_app before rest m w m1 w1 :
  headersFetched before m w m1 w1 ->
  fetchBlockHeaders (before ++ rest) m w = fetchBlockHeaders rest m1 w1.
Proof.
  induction 1 as [|h hs m w header w1 m' w' Hget _ IH]; [reflexivity|].
  cbn [app fetchBlockHeaders]. rewrite Hget. exact IH.
Qed.

(** The headers in the map after a run of the loop are those that were
    there and those of the heights gone through. *)
Lemma headersFetched_lookup heights m w m' w' k :
  headersFetched heights m w m' w' ->
  ~ In k heights -> m' !! k = m !! k.
Proof.
  induction 1 as [|h hs m w header w1 m' w' _ _ IH]; [reflexivity|].
  intros Hnot. rewrite IH by (intros Hin; apply Hnot; right; exact Hin).
  apply lookup_insert_ne. intros ->. apply Hnot. left. reflexivity.
Qed.

Lemma fetchTransactions_fail entry rest m txs w e w' :
  getTransaction network (tx_hash entry) None w = (inr e, w') ->
  fetchTransactions network (entry :: rest) m txs w = (txs, w').
Proof. cbn [fetchTransactions]. intros ->. reflexivity. Qed.

Lemma fetchTransactions_app before rest m txs w fetched w1 :
  transactionsFetched network m before w fetched w1 ->
  fetchTransactions network (before ++ rest) m txs w
  = fetchTransactions network rest m (txs ++ fetched) w1.
Proof.
  intros H. revert txs.
  induction H as [|entry es w tx w1 fetched w' Hget _ IH]; intros txs.
  - now rewrite app_nil_r.
  - cbn [app fetchTransactions]. rewrite Hget, IH, <- app_assoc. reflexivity.
Qed.

Lemma transactionsFetched_length m entries w fetched w' :
  transactionsFetched network m entries w fetched w' ->
  List.length fetched = List.length entries.
Proof. induction 1; cbn [List.length]; congruence. Qed.

(** A transaction fetched without a height has no block fields. *)
Lemma getTransaction_unconfirmed hash_ w tx w' :
  getTransaction network hash_ None w = (inl tx, w') ->
  block_hash tx = None /\ block_height tx = None /\ block_time tx = None.
Proof.
  unfold getTransaction. destruct (transaction_get hash_ w) as [[raw|e] w1];
    [|discriminate].
  cbn [positiveHeight]. unfold transactionToPlain.
  destruct (Transaction_fromHex raw); cbn [bind]; [|discriminate].
  intros [= <- _]. repeat split.
Qed.

(** Each record pushed by the second loop is the transaction fetched for
    the entry at the same place; its block fields are assigned only when
    the header of the height of the entry is in the map. *)
Lemma transactionsFetched_records m entries w fetched w' :
  transactionsFetched network m entries w fetched w' ->
  Forall2 (fun entry tx =>
             height entry ≫= (m !!.) = None ->
             block_hash tx = None /\ block_height tx = None
             /\ block_time tx = None)
          entries fetched.
Proof.
  induction 1 as [|entry es w tx w1 fetched w' Hget _ IH]; constructor.
  - intros Hmissing. unfold attachHeader. rewrite Hmissing.
    exact (getTransaction_unconfirmed _ _ _ _ Hget).
  - exact IH.
Qed.

(** C4: in [getHistory], a header that cannot be fetched ends the
    fetching of headers (no later header is asked for), and the
    transactions are fetched all the same, those whose header was not
    fetched getting no block fields; a transaction that cannot be fetched
    ends [getHistory] at once, with the records gathered before it. *)
Theorem getHistory_failures (script_ : string + list byte) (w w0 : World)
    (history : list Receipt) :
  getReceipts script_ w = (inl history, w0) ->
  let sorted := sortedHistory history in
  (forall before h after m1 w1 e w2,
     heightsOf sorted = before ++ h :: after ->
     headersFetched before ∅ w0 m1 w1 ->
     getBlockHeader h w1 = (inr e, w2) ->
     fetchBlockHeaders (heightsOf sorted) ∅ w0 = (m1, w2)
     /\ forall fetched w3,
          transactionsFetched network m1 sorted w2 fetched w3 ->
          getHistory network script_ w = (inl fetched, w3)
          /\ List.length fetched = List.length sorted
          /\ forall i entry tx,
               sorted !! i = Some entry -> fetched !! i = Some tx ->
               (forall k, height entry = Some k -> ~ In k before) ->
               block_hash tx = None /\ block_height tx = None
               /\ block_time tx = None)
  /\ (forall m w1 before entry after fetched w2 e w3,
       fetchBlockHeaders (heightsOf sorted) ∅ w0 = (m, w1) ->
       sorted = before ++ entry :: after ->
       transactionsFetched network m before w1 fetched w2 ->
       getTransaction network (tx_hash entry) None w2 = (inr e, w3) ->
       getHistory network script_ w = (inl fetched, w3)
       /\ List.length fetched = List.length before).
Proof.
  intros Hreceipts sorted. split.
  - intros before h after m1 w1 e w2 Hheights Hbefore Hfail.
    assert (Hheaders : fetchBlockHeaders (heightsOf sorted) ∅ w0 = (m1, w2)).
    { rewrite Hheights, (fetchBlockHeaders_app _ _ _ _ _ _ Hbefore).
      exact (fetchBlockHeaders_fail _ _ _ _ _ _ Hfail). }
    split; [exact Hheaders|].
    intros fetched w3 Hfetched. split; [|split].
    + unfold getHistory. rewrite Hreceipts. fold sorted. rewrite Hheaders.
      rewrite <- (app_nil_r sorted).
      rewrite (fetchTransactions_app _ _ _ _ _ _ _ Hfetched).
      reflexivity.
    + exact (transactionsFetched_length _ _ _ _ _ Hfetched).
    + intros i entry tx Hentry Htx Hnot.
      pose proof (transactionsFetched_records _ _ _ _ _ Hfetched) as Hall.
      apply (Forall2_lookup_lr _ _ _ _ _ _ Hall Hentry Htx).
      destruct (height entry) as [k|] eqn:Hk; [|reflexivity].
      cbn [mbind option_bind].
      rewrite (headersFetched_lookup _ _ _ _ _ k Hbefore) by (apply Hnot; reflexivity).
      apply lookup_empty.
  - intros m w1 before entry after fetched w2 e w3 Hheaders Hsorted Hbefore Hfail.
    split; [|exact (transactionsFetched_length _ _ _ _ _ Hbefore)].
    unfold getHistory. rewrite Hreceipts. fold sorted. rewrite Hheaders.
    rewrite Hsorted, (fetchTransactions_app _ _ _ _ _ _ _ Hbefore).
    rewrite (fetchTransactions_fail _ _ _ _ _ _ _ Hfail). reflexivity.
Qed.

End ElectrumApiFacts.

Section ElectrumApiExamples.
Import Js ElectrumApi Samples.

(** The header of height 500 cannot be fetched: the header of 300 is not
    asked for, and the three transactions are fetched. *)
Lemma getHistory_failures_witness :
  exists txs,
    getHistory (lib := toyLib)
      (socket := toySocket threeReceipts (Z.eqb 500) (fun _ => false) JNull)
      tt (inr []) []
    = (inl txs, ["get_history"; "header 500"; "get bb"; "get aa"; "get cc"])
    /\ List.length txs = 3
    /\ map block_height txs = [None; None; None].
Proof.
  destruct (getHistory_failures (lib := toyLib)
              (socket := toySocket threeReceipts (Z.eqb 500)
                           (fun _ => false) JNull)
              tt (inr []) [] ["get_history"] threeReceipts eq_refl)
    as [Hheader _].
  destruct (Hheader [] 500%Z [300%Z] ∅ ["get_history"]
              (Error "no header") ["get_history"; "header 500"]
              eq_refl (headersFetched_nil _ _) eq_refl) as [_ Htxs].
  eexists.
  edestruct Htxs as (Hresult & Hlength & _).
  - eapply transactionsFetched_cons; [reflexivity|].
    eapply transactionsFetched_cons; [reflexivity|].
    eapply transactionsFetched_cons; [reflexivity|].
    apply transactionsFetched_nil.
  - split; [exact Hresult|]. split; reflexivity.
Defined.

(** The transaction [aa] cannot be fetched: [getHistory] returns the one
    record gathered before it, and [cc] is not asked for. *)
Example getHistory_transaction_failure :
  getHistory (lib := toyLib)
    (socket := toySocket threeReceipts (fun _ => false) (String.eqb "aa") JNull)
    tt (inr []) []
  = (inl [ {| txid := "bb"; inputs := []; outputs := []; version := 2;
              vsize := 100; isCoinbase := false; weight := 400;
              block_hash := None; block_height := None;
              block_time := None |} ],
     ["get_history"; "header 500"; "header 300"; "get bb"; "get aa"]).
Proof. reflexivity. Qed.

(** The history of heights 500, none, 300 is fetched in the order none,
    500, 300. *)
Example getHistory_order :
  map tx_hash (sortedHistory threeReceipts) = ["bb"; "aa"; "cc"].
Proof. reflexivity. Qed.

Lemma broadcastTransaction_checks_id_witness :
  broadcastTransaction (lib := toyLib)
    (socket := toySocket [] (fun _ => false) (fun _ => false) (JStr "T2"))
    tt "T1" []
  = (inr (Error "T2"), ["broadcast T1"]).
Proof.
  destruct (broadcastTransaction_checks_id (lib := toyLib)
              (socket := toySocket [] (fun _ => false) (fun _ => false)
                           (JStr "T2"))
              tt "T1" []) as [_ Hdecoded].
  edestruct Hdecoded as [_ Hanswer]; [reflexivity|].
  edestruct Hanswer as (_ & _ & Hmismatch); [reflexivity|].
  apply Hmismatch; [reflexivity | discriminate].
Defined.

Example broadcastTransaction_match :
  fst (broadcastTransaction (lib := toyLib)
         (socket := toySocket [] (fun _ => false) (fun _ => false) (JStr "T1"))
         tt "T1" [])
  = transactionToPlain (lib := toyLib) tt "T1" None.
Proof. reflexivity. Qed.

(** A raw transaction that does not decode is not submitted. *)
Example broadcastTransaction_undecodable :
  broadcastTransaction (lib := toyLib)
    (socket := toySocket [] (fun _ => false) (fun _ => false) (JStr "T1"))
    tt "" []
  = (inr (Error "cannot decode"), []).
Proof. reflexivity. Qed.


End ElectrumApiExamples.

(* ===================================================================== *)
(** * Facts about the wallet *)
(* ===================================================================== *)

Section UtxoFacts.
Import Js ElectrumApi Wallet.

(** *** The text [txid:index] names one output *)

Lemma string_of_uint_no_colon (d : Decimal.uint) :
  occurs ":" (NilEmpty.string_of_uint d) = false.
Proof. induction d; cbn; auto. Qed.

Lemma numberToString_no_colon (n : Z) : occurs ":" (numberToString n) = false.
Proof.
  unfold numberToString. destruct (Z.to_int n); cbn;
    apply string_of_uint_no_colon.
Qed.

Lemma numberToString_inj (n m : Z) :
  numberToString n = numberToString m -> n = m.
Proof.
  unfold numberToString. intros H. apply DecimalZ.to_int_inj.
  assert (Hsome : Some (Z.to_int n) = Some (Z.to_int m))
    by (rewrite <- !NilEmpty.isi; now rewrite H).
  now injection Hsome.
Qed.

Lemma occurs_middle (c : ascii) (t d : string) :
  occurs c (t +++ String c d) = true.
Proof.
  induction t as [|x t IH].
  - rewrite append_nil_l. cbn [occurs]. now rewrite Ascii.eqb_refl.
  - rewrite append_cons. cbn [occurs]. now rewrite IH, orb_true_r.
Qed.

Lemma colon_split (t1 t2 d1 d2 : string) :
  occurs ":" d1 = false -> occurs ":" d2 = false ->
  t1 +++ ":" +++ d1 = t2 +++ ":" +++ d2 -> t1 = t2 /\ d1 = d2.
Proof.
  intros H1 H2. revert t2.
  induction t1 as [|x t1 IH]; intros [|y t2];
    rewrite ?append_cons, ?append_nil_l; intros Heq.
  - injection Heq as ->. split; reflexivity.
  - injection Heq as <- ->. now rewrite occurs_middle in H1.
  - injection Heq as -> <-. now rewrite occurs_middle in H2.
  - injection Heq as -> Heq. destruct (IH t2) as [-> ->].
    + now rewrite ?append_cons, ?append_nil_l.
    + split; reflexivity.
Qed.

Lemma outpoint_inj (t1 t2 : string) (i1 i2 : Z) :
  outpoint t1 i1 = outpoint t2 i2 <-> t1 = t2 /\ i1 = i2.
Proof.
  split; [|intros [-> ->]; reflexivity].
  unfold outpoint. intros H.
  apply colon_split in H as [-> H]; try apply numberToString_no_colon.
  split; [reflexivity | exact (numberToString_inj _ _ H)].
Qed.

Lemma includes_In (x : string) (l : list string) :
  includes x l = true <-> In x l.
Proof.
  unfold includes. rewrite existsb_exists. split.
  - intros (y & Hy & Heq). apply String.eqb_eq in Heq. now subst.
  - intros H. exists x. split; [exact H | apply String.eqb_refl].
Qed.

(** *** Sorting rearranges *)

Lemma sortInsert_perm {A : Type} (compare : A -> A -> Z) (x : A) (l : list A) :
  Permutation (sortInsert compare x l) (x :: l).
Proof.
  induction l as [|y l IH]; cbn [sortInsert]; [reflexivity|].
  destruct (compare x y <=? 0)%Z; [reflexivity|].
  rewrite IH. apply perm_swap.
Qed.

Lemma sort_perm {A : Type} (compare : A -> A -> Z) (l : list A) :
  Permutation (sort compare l) l.
Proof.
  induction l as [|x l IH]; [reflexivity|].
  unfold sort in *. cbn [fold_right]. rewrite sortInsert_perm.
  now constructor.
Qed.

Lemma txsArray_In (txs : list (string * PlainTransaction)) tx :
  In tx (txsArray txs) <-> In tx (Object_values txs).
Proof.
  unfold txsArray. split; apply Permutation_in;
    [|symmetry]; apply sort_perm.
Qed.

(** *** The loops of [utxos] *)

Lemma fold_left_concat {A B : Type} (g : A -> list B) (l : list A)
    (acc : list B) :
  fold_left (fun list_ x => list_ ++ g x) l acc = acc ++ flat_map g l.
Proof.
  revert acc. induction l as [|x l IH]; intros acc; cbn [fold_left flat_map].
  - now rewrite app_nil_r.
  - rewrite IH. now rewrite app_assoc.
Qed.

Lemma utxos_loop (inputs_ : list string)
    (ext_addresses int_addresses : list AddressInfo)
    (outputs_ : list (PlainOutput * string)) (acc : list Utxo) (u : Utxo) :
  In u (fold_left
          (fun utxos_ '(output_, txid_) =>
             let address_ := po_address output_ in
             if negb (includes address_ (map ai_address ext_addresses))
                && negb (includes address_ (map ai_address int_addresses))
             then utxos_
             else if includes (outpoint txid_ (po_index output_)) inputs_
             then utxos_
             else utxos_ ++
                  [{| u_hash := txid_;
                      u_index := po_index output_;
                      witnessUtxo_script := po_script output_;
                      witnessUtxo_value := po_value output_;
                      u_address := address_;
                      isInternal :=
                        includes address_ (map ai_address int_addresses) |}])
          outputs_ acc)
  <-> In u acc
      \/ exists output_ txid_,
           In (output_, txid_) outputs_
           /\ owned ext_addresses int_addresses output_
           /\ ~ In (outpoint txid_ (po_index output_)) inputs_
           /\ u = utxoOf int_addresses txid_ output_.
Proof.
  revert acc. induction outputs_ as [|[o t] rest IH]; intros acc.
  - cbn [fold_left]. split; [auto|]. intros [H|(o & t & [] & _)]. exact H.
  - cbn [fold_left]. rewrite IH. clear IH. cbv zeta.
    set (key := outpoint t (po_index o)).
    match goal with
    | |- In u ?a \/ _ <-> _ => set (acc' := a)
    end.
    assert (Hhead :
      (acc' = acc
       /\ ~ (owned ext_addresses int_addresses o /\ ~ In key inputs_))
      \/ (acc' = acc ++ [utxoOf int_addresses t o]
          /\ owned ext_addresses int_addresses o /\ ~ In key inputs_)).
    { subst acc'. unfold owned. rewrite <- !includes_In.
      unfold utxoOf.
      destruct (includes (po_address o) (map ai_address ext_addresses));
        destruct (includes (po_address o) (map ai_address int_addresses));
        destruct (includes key inputs_); cbn [negb andb];
        try (left; split; [reflexivity|]; intros [[H|H] Hn];
             try discriminate; apply Hn; reflexivity);
        right; (split; [reflexivity|]); split; auto; discriminate. }
    clearbody acc'.
    destruct Hhead as [[-> Hskip] | (-> & Howned & Hunspent)].
    + split.
      * intros [H|(o' & t' & Hmem & Hrest)]; [left; exact H|].
        right. exists o', t'. split; [right; exact Hmem | exact Hrest].
      * intros [H|(o' & t' & [Heq|Hmem] & Ho & Hu & Heq')]; [left; exact H| |].
        -- injection Heq as <- <-. exfalso. apply Hskip. split; assumption.
        -- right. exists o', t'. repeat split; assumption.
    + rewrite in_app_iff. cbn [In]. split.
      * intros [[H|[H|[]]]|(o' & t' & Hmem & Hrest)].
        -- left; exact H.
        -- right. exists o, t. repeat split; auto.
        -- right. exists o', t'. split; [right; exact Hmem | exact Hrest].
      * intros [H|(o' & t' & [Heq|Hmem] & Ho & Hu & Heq')].
        -- left; left; exact H.
        -- injection Heq as <- <-. left; right; left. symmetry; exact Heq'.
        -- right. exists o', t'. repeat split; assumption.
Qed.

(** C2: the list of UTXOs holds exactly the outputs of the records of the
    ledger whose address is that of a known external or internal entry
    and to whose (txid, index) no input of any record refers; so an
    output (A, i) that an input of some record B refers to is not in the
    list. *)
Theorem utxos_exactly_unspent_owned (txs : list (string * PlainTransaction))
    (ext_addresses int_addresses : list AddressInfo) :
  (forall u,
     In u (utxos txs ext_addresses int_addresses)
     <-> exists tx output_,
          In tx (Object_values txs) /\ In output_ (outputs tx)
          /\ owned ext_addresses int_addresses output_
          /\ ~ spent txs (txid tx) (po_index output_)
          /\ u = utxoOf int_addresses (txid tx) output_)
  /\ (forall A B output_ input,
        In A (Object_values txs) -> In B (Object_values txs) ->
        In output_ (outputs A) -> In input (inputs B) ->
        pi_txid input = txid A -> pi_output_index input = po_index output_ ->
        forall u, In u (utxos txs ext_addresses int_addresses) ->
                  ~ (u_hash u = txid A /\ u_index u = po_index output_)).
Proof.
  assert (Hmain : forall u,
     In u (utxos txs ext_addresses int_addresses)
     <-> exists tx output_,
          In tx (Object_values txs) /\ In output_ (outputs tx)
          /\ owned ext_addresses int_addresses output_
          /\ ~ spent txs (txid tx) (po_index output_)
          /\ u = utxoOf int_addresses (txid tx) output_).
  { intros u. unfold utxos, utxosOf.
    assert (Hinputs : forall t i,
      In (outpoint t i)
         (flat_map (fun tx => map (fun input =>
                       outpoint (pi_txid input) (pi_output_index input))
                     (inputs tx)) (txsArray txs))
      <-> spent txs t i).
    { intros t i. rewrite in_flat_map. unfold spent. split.
      - intros (tx & Htx & Hin). apply in_map_iff in Hin as (input & Heq & Hin).
        apply outpoint_inj in Heq as [Ht Hi]. apply txsArray_In in Htx.
        exists tx, input. tauto.
      - intros (tx & input & Htx & Hin & <- & <-).
        exists tx. split; [now apply txsArray_In|].
        apply in_map_iff. exists input. tauto. }
    destruct (txsArray txs) as [|first others] eqn:Harray.
    - split; [intros []|].
      intros (tx & _ & Htx & _). apply txsArray_In in Htx.
      rewrite Harray in Htx. destruct Htx.
    - rewrite <- Harray in *. clear Harray first others.
      rewrite !(fold_left_concat _ _ []). cbn [app].
      rewrite utxos_loop. cbn [In]. split.
      + intros [[]|(o & t & Hmem & Howned & Hunspent & ->)].
        apply in_flat_map in Hmem as (tx & Htx & Hmem).
        apply in_map_iff in Hmem as (o' & [= -> <-] & Ho).
        exists tx, o. rewrite <- Hinputs. apply txsArray_In in Htx. tauto.
      + intros (tx & o & Htx & Ho & Howned & Hunspent & ->).
        right. exists o, (txid tx). rewrite Hinputs.
        repeat split; try assumption.
        apply in_flat_map. exists tx. split; [now apply txsArray_In|].
        apply in_map_iff. exists o. tauto. }
  split; [exact Hmain|].
  intros A B o input HA HB Ho Hinput Htxid Hindex u Hu [Hhash Hidx].
  apply Hmain in Hu as (tx & o' & _ & _ & _ & Hunspent & ->).
  cbn [utxoOf u_hash u_index] in Hhash, Hidx.
  apply Hunspent. exists B, input. repeat split; try assumption; congruence.
Qed.

(** Output 0 of [A] is spent by [B]: only output 1 of [A] is in the
    list. *)
Example utxos_spent_output_excluded :
  utxos [("A", Samples.recordA); ("B", Samples.recordB)]
        [Samples.addressX] []
  = [ {| u_hash := "A"; u_index := 1; witnessUtxo_script := [];
         witnessUtxo_value := 5; u_address := "X"; isInternal := false |} ]
  /\ balance [("A", Samples.recordA); ("B", Samples.recordB)]
             [Samples.addressX] [] = 5%Z.
Proof. split; reflexivity. Qed.

End UtxoFacts.

Section ScanFacts.
Import Js ElectrumApi Wallet.
Context {S : Type}.
Variable probe : AddressInfo -> S -> result bool * S.
Variable after : AddressInfo -> S -> result unit * S.
Variable newAddressInfo : nat -> AddressInfo.
(** The activity found for an entry is a function [act] of its index, and
    no request fails. *)
Variable act : nat -> bool.
Hypothesis probe_act :
  forall addressInfo s, fst (probe addressInfo s) = inl (act (ai_index addressInfo)).
Hypothesis after_done : forall addressInfo s, fst (after addressInfo s) = inl tt.
Hypothesis new_index : forall i, ai_index (newAddressInfo i) = i.

Local Abbreviation derived := (derivedEntries newAddressInfo act).


Lemma derived_cons from n :
  derived from (Datatypes.S n)
  = setActive (act from) (newAddressInfo from) :: derived (Datatypes.S from) n.
Proof. reflexivity. Qed.



(** The [while] loop with a gap of one: it derives the entry of index
    [length addresses], then the next, and stops at the first one that
    is found inactive, not before. *)
Lemma deriveNext_first_inactive (fuel : nat) :
  forall (k : nat) (addresses : list AddressInfo) (s : S),
    (forall i, i < k -> act (List.length addresses + i) = true) ->
    act (List.length addresses + k) = false ->
    exists s',
      deriveNext probe after newAddressInfo 1 fuel addresses 0 s
      = if Nat.leb fuel k
        then ((addresses ++ derived (List.length addresses) fuel,
               0, Unfinished), s')
        else ((addresses ++ derived (List.length addresses) (Datatypes.S k),
               1, Finished), s').
Proof.
  induction fuel as [|fuel IH]; intros k addresses s Hactive Hinactive.
  - exists s. cbn. now rewrite app_nil_r.
  - cbn [deriveNext Nat.leb].
    pose proof (probe_act (newAddressInfo (List.length addresses)) s) as Hp.
    destruct (probe (newAddressInfo (List.length addresses)) s) as [r s1].
    cbn [fst] in Hp. subst r. rewrite new_index.
    destruct k as [|k].
    + rewrite Nat.add_0_r in Hinactive. rewrite Hinactive. cbn [Nat.leb].
      exists s1. unfold derivedEntries. cbn [seq map]. now rewrite Hinactive.
    + pose proof (Hactive 0 ltac:(lia)) as H0. rewrite Nat.add_0_r in H0.
      rewrite H0. cbn [Nat.leb].
      pose proof (after_done
                    (setActive true (newAddressInfo (List.length addresses)))
                    s1) as Ha.
      destruct (after _ s1) as [r s2]. cbn [fst] in Ha. subst r.
      destruct (IH k (addresses ++
                        [setActive true (newAddressInfo (List.length addresses))])
                  s2) as [s' Hrun].
      * intros i Hi. rewrite length_app. cbn [List.length].
        replace (List.length addresses + 1 + i)
          with (List.length addresses + Datatypes.S i) by lia.
        apply Hactive. lia.
      * rewrite length_app. cbn [List.length].
        replace (List.length addresses + 1 + k)
          with (List.length addresses + Datatypes.S k) by lia.
        exact Hinactive.
      * exists s'. rewrite Hrun. rewrite length_app. cbn [List.length].
        rewrite Nat.add_1_r, <- !app_assoc. cbn [app].
        rewrite (derived_cons _ fuel), (derived_cons _ (Datatypes.S k)), H0.
        reflexivity.
Qed.






End ScanFacts.

Section ScanExamples.
Import Js ElectrumApi Wallet Samples.


(** The scan never derives the entry of index 4 there, however long it
    may run. *)
Example scan_no_fifth_entry :
  forall fuel,
    4 <= fuel ->
    fst (scanChain (probeBy threeActive) nothingAfter bareAddressInfo
           INACTIVE_ADDRESS_GAP fuel [] tt)
    = (derivedEntries bareAddressInfo threeActive 0 4, 1, Finished).
Proof.
  intros fuel Hfuel.
  destruct (deriveNext_first_inactive (probeBy threeActive) nothingAfter
              bareAddressInfo threeActive
              (fun _ _ => eq_refl) (fun _ _ => eq_refl) (fun _ => eq_refl)
              fuel 3 [] tt) as [[] Hrun].
  - intros i Hi. destruct i as [|[|[|i]]]; [reflexivity..|lia].
  - reflexivity.
  - unfold scanChain, INACTIVE_ADDRESS_GAP. cbn [rescan]. rewrite Hrun.
    destruct (Nat.leb_spec fuel 3); [lia | reflexivity].
Qed.


(** The watcher itself, on a server that knows a transaction for the
    external addresses 0, 1 and 2 only: four external entries and one
    internal entry are derived, and three records are stored. *)
Example accountExtPubKey_scans_both_chains :
  let '((wallet, r), log) :=
    accountExtPubKey (lib := toyLib) (socket := threeUsedAddresses)
      (bip32 := pathNodes) tt 10 (Some []) None
      {| ext_addresses := []; int_addresses := []; txs := [] |} [] in
  r = Finished
  /\ map ai_index (ext_addresses wallet) = [0; 1; 2; 3]
  /\ map active (ext_addresses wallet) = [true; true; true; false]
  /\ map active (int_addresses wallet) = [false]
  /\ map fst (txs wallet) = ["tx0000"; "tx0100"; "tx0200"]
  /\ log = ["get_history 0000"; "get_history 0100"; "get_history 0200";
            "get_history 0300"; "get_history 0001"].
Proof. vm_compute. repeat split. Qed.

End ScanExamples.

Section LedgerFacts.
Import Js ElectrumWS Wallet.

Lemma assoc_objSet_eq {A : Type} (k : string) (v : A) (o : list (string * A)) :
  assoc k (objSet k v o) = Some v.
Proof.
  induction o as [|[k' v'] o IH]; cbn [objSet assoc].
  - now rewrite String.eqb_refl.
  - destruct (String.eqb k k') eqn:E; cbn [assoc]; rewrite ?String.eqb_refl;
      [reflexivity | now rewrite E].
Qed.

Lemma assoc_objSet_ne {A : Type} (k k' : string) (v : A)
    (o : list (string * A)) :
  k <> k' -> assoc k' (objSet k v o) = assoc k' o.
Proof.
  intros Hne. induction o as [|[k0 v0] o IH]; cbn [objSet assoc].
  - apply String.eqb_neq in Hne. rewrite String.eqb_sym in Hne.
    now rewrite Hne.
  - destruct (String.eqb k k0) eqn:E; cbn [assoc].
    + apply String.eqb_eq in E. subst k0.
      apply String.eqb_neq in Hne. rewrite String.eqb_sym in Hne.
      now rewrite Hne.
    + now rewrite IH.
Qed.

Lemma assoc_not_in {A : Type} (k : string) (o : list (string * A)) :
  ~ In k (map fst o) -> assoc k o = None.
Proof.
  induction o as [|[k' v'] o IH]; cbn [assoc map fst In]; [reflexivity|].
  intros H. destruct (String.eqb_spec k k') as [->|_]; [tauto|].
  apply IH. tauto.
Qed.

(** Assigning the properties of [fields] one after the other. *)
Lemma assoc_assign_all (fields tx : object) (k : string) :
  List.NoDup (map fst fields) ->
  assoc k (fold_left (fun tx kv => objSet (fst kv) (snd kv) tx) fields tx)
  = match assoc k fields with
    | Some v => Some v
    | None => assoc k tx
    end.
Proof.
  intros Hnodup. revert tx.
  induction fields as [|[k1 v1] rest IH]; intros tx; [reflexivity|].
  cbn [map fst] in Hnodup. apply NoDup_cons_iff in Hnodup as [Hfresh Hnodup].
  cbn [fold_left fst snd assoc]. rewrite (IH Hnodup).
  destruct (String.eqb_spec k k1) as [->|Hne].
  - rewrite (assoc_not_in _ _ Hfresh). apply assoc_objSet_eq.
  - destruct (assoc k rest); [reflexivity|].
    apply assoc_objSet_ne. congruence.
Qed.

Lemma assoc_without_txid (o : object) (k : string) :
  k <> "txid" ->
  assoc k (List.filter (fun kv => negb (String.eqb (fst kv) "txid")) o)
  = assoc k o.
Proof.
  intros Hne. induction o as [|[k' v'] o IH]; [reflexivity|].
  cbn [List.filter fst assoc].
  destruct (String.eqb_spec k' "txid") as [->|Hk']; cbn [negb assoc].
  - apply String.eqb_neq in Hne. now rewrite Hne.
  - now rewrite IH.
Qed.

Lemma txid_filtered (o : object) :
  assoc "txid" (List.filter (fun kv => negb (String.eqb (fst kv) "txid")) o)
  = None.
Proof.
  induction o as [|[k' v'] o IH]; [reflexivity|].
  cbn [List.filter fst].
  destruct (String.eqb_spec k' "txid") as [->|Hk']; cbn [negb assoc];
    [exact IH|].
  destruct (String.eqb_spec "txid" k'); [congruence | exact IH].
Qed.

Lemma NoDup_keys_filter (f : string * json -> bool) (o : object) :
  List.NoDup (map fst o) -> List.NoDup (map fst (List.filter f o)).
Proof.
  induction o as [|[k v] o IH]; cbn [List.filter map fst]; [auto|].
  intros H. apply NoDup_cons_iff in H as [Hfresh H].
  destruct (f (k, v)); [|exact (IH H)].
  cbn [map fst]. constructor; [|exact (IH H)].
  intros Hin. apply Hfresh. apply in_map_iff in Hin as ([k' v'] & <- & Hin).
  apply List.filter_In in Hin as [Hin _].
  apply in_map_iff. exists (k', v'). split; [reflexivity | exact Hin].
Qed.

(** The method of the wallet on [ElectrumApi] merges field by field: in
    the stored record of the [txid] of [partialTx], every property of
    [partialTx] but [txid] gets the value that [partialTx] gives it, every
    other property keeps its value, and the other records keep theirs. *)
Lemma updateTransaction_merges_fields (partialTx : object)
    (txs_ : list (string * object)) (id : string) (stored : object) :
  List.NoDup (map fst partialTx) ->
  assoc "txid" partialTx = Some (JStr id) ->
  assoc id txs_ = Some stored ->
  exists updated,
    updateTransaction partialTx txs_ = inl (objSet id updated txs_)
    /\ assoc id (objSet id updated txs_) = Some updated
    /\ (forall k, k <> "txid" ->
          assoc k updated = match assoc k partialTx with
                            | Some v => Some v
                            | None => assoc k stored
                            end)
    /\ assoc "txid" updated = assoc "txid" stored
    /\ (forall id', id <> id' ->
          assoc id' (objSet id updated txs_) = assoc id' txs_).
Proof.
  intros Hnodup Htxid Hstored. unfold updateTransaction.
  rewrite Htxid. cbn [propertyKey toString]. rewrite Hstored.
  eexists. split; [reflexivity|]. split; [apply assoc_objSet_eq|].
  split; [|split].
  - intros k Hk. rewrite assoc_assign_all by (apply NoDup_keys_filter, Hnodup).
    now rewrite assoc_without_txid.
  - rewrite assoc_assign_all by (apply NoDup_keys_filter, Hnodup).
    now rewrite txid_filtered.
  - intros id' Hne. now apply assoc_objSet_ne.
Qed.

Example updateTransaction_attaches_block :
  updateTransaction Samples.minedUpdate [("T", Samples.unconfirmedRecord)]
  = inl [("T", [("txid", JStr "T"); ("outputs", JArr []); ("fee", JNum 250);
                ("block_height", JNum 100);
                ("block_time", JNum 1600000000)])].
Proof. reflexivity. Qed.

(** What the method of [wallet.js] stores, whenever it completes: the
    stored record with one more property, [partialTx], that holds the
    whole of the partial record. *)
Lemma smartbit_updateTransaction_stores (partialTx : object)
    (wallet wallet' : SmartBitWallet.t) :
  SmartBitWallet.updateTransaction partialTx wallet = (wallet', Normal) ->
  let stored :=
    match assoc (propertyKey (assoc "txid" partialTx))
                (SmartBitWallet.txs wallet) with
    | Some record => SmartBitWallet.props record
    | None => []
    end in
  let tx := objSet "partialTx" (JObj partialTx) stored in
  option_map SmartBitWallet.props
    (assoc (propertyKey (assoc "txid" tx)) (SmartBitWallet.txs wallet'))
  = Some tx
  /\ forall k, k <> "partialTx" -> assoc k tx = assoc k stored.
Proof.
  intros H stored tx.
  unfold SmartBitWallet.updateTransaction, SmartBitWallet.addTransaction in H.
  fold stored in H. fold tx in H.
  split; [|intros k Hk; apply assoc_objSet_ne; congruence].
  destruct (assoc "outputs" tx ≫= spread) as [outs|]; [|discriminate].
  destruct (SmartBitWallet.markOutputs outs _ _) as [[ext int] []];
    [|discriminate].
  injection H as <-. cbn [SmartBitWallet.txs].
  rewrite assoc_objSet_eq. reflexivity.
Qed.

(** C9 fails on [wallet.js]: [updateTransaction] applied to
    [{txid: "T", block_height: 100, block_time: 1600000000}] leaves
    [block_height] of the stored record [T] at [null] and gives it no
    [block_time]; the partial record ends up whole under a new property
    [partialTx]. *)
Theorem smartbit_updateTransaction_nests_partial :
  exists wallet' record,
    SmartBitWallet.updateTransaction Samples.minedUpdate Samples.smartBitWallet
    = (wallet', Normal)
    /\ assoc "T" (SmartBitWallet.txs wallet') = Some record
    /\ assoc "block_height" (SmartBitWallet.props record) = Some JNull
    /\ assoc "block_time" (SmartBitWallet.props record) = None
    /\ assoc "partialTx" (SmartBitWallet.props record)
       = Some (JObj Samples.minedUpdate)
    /\ assoc "block_height" Samples.minedUpdate = Some (JNum 100).
Proof. do 2 eexists. repeat split. Qed.

End LedgerFacts.

(* ===================================================================== *)
(** * More facts about the hex helpers *)
(* ===================================================================== *)

Section HexMoreFacts.
Import Hex HexText.

Lemma hexToBytes_of_bytesToHex (b : list byte) :
  hexToBytes (bytesToHex b) = b.
Proof.
  induction b as [|x xs IH]; [reflexivity|].
  rewrite bytesToHex_cons.
  destruct (hexOfByte_spec x) as (c1 & c2 & -> & Hdot & _ & Hval).
  unfold hexToBytes in *. rewrite !append_cons, append_nil_l.
  cbn [matchPairs]. rewrite Hdot. cbn [map]. rewrite Hval. now f_equal.
Qed.

Lemma bytesToHex_shape (b : list byte) :
  String.length (bytesToHex b) = 2 * List.length b
  /\ allChars isLowerHexChar (bytesToHex b) = true.
Proof.
  induction b as [|x xs [IHl IHc]]; [split; reflexivity|].
  rewrite bytesToHex_cons.
  destruct (hexOfByte_spec x) as (c1 & c2 & -> & _ & Hlow & _).
  apply andb_prop in Hlow as [Hl1 Hl2].
  rewrite !append_cons, append_nil_l. cbn [String.length allChars List.length].
  rewrite IHl, Hl1, Hl2, IHc. split; [lia | reflexivity].
Qed.

Lemma hexDigit_cases (c : ascii) :
  isHexDigit c = true ->
  In c (list_ascii_of_string "0123456789abcdefABCDEF").
Proof.
  destruct c as [[] [] [] [] [] [] [] []]; intros H; vm_compute in H;
    try discriminate H; cbn [list_ascii_of_string In];
    repeat (try (left; reflexivity); right).
Qed.

(** Two digits read as a byte print back as the same digits in lower
    case. *)
Lemma hex_pair_reads_back (c1 c2 : ascii) :
  isHexDigit c1 = true -> isHexDigit c2 = true ->
  dot c1 && dot c2 = true
  /\ hexOfByte (toUint8 (parseInt16 (String c1 (String c2 EmptyString))))
     = String (lowerChar c1) (String (lowerChar c2) EmptyString).
Proof.
  intros H1 H2. apply hexDigit_cases in H1, H2.
  cbn [list_ascii_of_string In] in H1, H2.
  repeat match goal with
         | H : _ \/ _ |- _ => destruct H as [<-|H]
         | H : False |- _ => destruct H
         end; split; vm_compute; reflexivity.
Qed.

Lemma bytesToHex_of_hexToBytes_by_pairs (n : nat) :
  forall hex,
    String.length hex = 2 * n ->
    allChars isHexDigit hex = true ->
    bytesToHex (hexToBytes hex) = lowerCase hex.
Proof.
  induction n as [|n IH]; intros hex Hlen Hdigits.
  - destruct hex; [reflexivity | discriminate].
  - destruct hex as [|c1 [|c2 rest]]; try (cbn in Hlen; lia).
    cbn [allChars] in Hdigits.
    apply andb_prop in Hdigits as [H1 Hdigits].
    apply andb_prop in Hdigits as [H2 Hdigits].
    destruct (hex_pair_reads_back c1 c2 H1 H2) as [Hdot Hpair].
    unfold hexToBytes. cbn [matchPairs]. rewrite Hdot. cbn [map].
    rewrite bytesToHex_cons, Hpair, !append_cons, append_nil_l.
    cbn [lowerCase]. do 2 f_equal.
    apply IH; [cbn [String.length] in Hlen; lia | exact Hdigits].
Qed.

(** X1: reading a text of an even number of hex digits, in either case,
    and printing the bytes gives the text back in lower case. *)
Theorem bytesToHex_of_hexToBytes (hex : string) :
  Nat.even (String.length hex) = true ->
  allChars isHexDigit hex = true ->
  bytesToHex (hexToBytes hex) = lowerCase hex.
Proof.
  intros Heven Hdigits. apply Nat.even_spec in Heven as [n Hn].
  exact (bytesToHex_of_hexToBytes_by_pairs n hex Hn Hdigits).
Qed.

Lemma bytesToHex_of_hexToBytes_witness :
  bytesToHex (hexToBytes "00FfA4b7") = lowerCase "00FfA4b7".
Proof.
  apply (bytesToHex_of_hexToBytes "00FfA4b7"); reflexivity.
Defined.

Lemma matchPairs_two (c1 c2 : ascii) (rest : string) :
  matchPairs (String c1 (String c2 rest))
  = if dot c1 && dot c2
    then String c1 (String c2 EmptyString) :: matchPairs rest
    else matchPairs (String c2 rest).
Proof. reflexivity. Qed.

Lemma matchPairs_length_bound (n : nat) :
  forall hex,
    String.length hex <= n ->
    2 * List.length (matchPairs hex) <= String.length hex
    /\ (allChars dot hex = true ->
        List.length (matchPairs hex) = Nat.div2 (String.length hex)).
Proof.
  induction n as [|n IH]; intros hex Hlen.
  - destruct hex; [split; reflexivity | cbn in Hlen; lia].
  - destruct hex as [|c1 [|c2 rest]];
      [split; reflexivity | split; [cbn; lia | reflexivity] |].
    rewrite matchPairs_two. cbn [String.length] in *.
    destruct (dot c1 && dot c2) eqn:Hdot.
    + destruct (IH rest ltac:(lia)) as [Hle Heq].
      cbn [List.length]. split; [lia|].
      cbn [allChars]. intros H.
      apply andb_prop in H as [_ H]. apply andb_prop in H as [_ H].
      cbn [Nat.div2]. now rewrite (Heq H).
    + destruct (IH (String c2 rest) ltac:(cbn [String.length]; lia))
        as [Hle _].
      cbn [String.length] in Hle. split; [lia|].
      cbn [allChars]. intros H.
      apply andb_prop in H as [H1 H]. apply andb_prop in H as [H2 _].
      rewrite H1, H2 in Hdot. discriminate.
Qed.

(** X2: [hexToBytes] gives at most one byte for two characters of the
    text, and exactly one for two when the text has no line terminator
    (a last odd character is left out); it takes any text. *)
Theorem hexToBytes_length (hex : string) :
  2 * List.length (hexToBytes hex) <= String.length hex
  /\ (allChars dot hex = true ->
      List.length (hexToBytes hex) = Nat.div2 (String.length hex)).
Proof.
  unfold hexToBytes. rewrite length_map.
  exact (matchPairs_length_bound (String.length hex) hex (le_n _)).
Qed.

(** A pair that is no number gives the byte 0, a last odd character is
    dropped, and a line terminator shifts the pairs. *)
Example hexToBytes_edges :
  hexToBytes "zz" = [x00] /\ hexToBytes "abc" = [xab]
  /\ hexToBytes (String "a" (String (ascii_of_nat 10) "bcd")) = [xbc].
Proof. repeat split. Qed.

End HexMoreFacts.

Section PubKeyToHashFacts.
Import Hex ElectrumApi.
Context {Network : Type} {lib : BitcoinJS Network}.

(** X3: [pubKeyToHash] gives the same script hash for a script given as
    bytes and for the same script given as the hex text of these bytes;
    the hash is a lower-case hex text, two characters for each byte of
    the digest. *)
Theorem pubKeyToHash_hex_or_bytes (scriptPubKey : list byte) :
  pubKeyToHash (inl (bytesToHex scriptPubKey)) = pubKeyToHash (inr scriptPubKey)
  /\ String.length (pubKeyToHash (inr scriptPubKey))
     = 2 * List.length (sha256 scriptPubKey)
  /\ allChars isLowerHexChar (pubKeyToHash (inr scriptPubKey)) = true
  /\ hexToBytes (pubKeyToHash (inr scriptPubKey)) = rev (sha256 scriptPubKey).
Proof.
  unfold pubKeyToHash. rewrite hexToBytes_of_bytesToHex.
  destruct (bytesToHex_shape (rev (sha256 scriptPubKey))) as [Hlen Hlow].
  rewrite length_rev in Hlen.
  repeat split; try assumption. apply hexToBytes_of_bytesToHex.
Qed.

End PubKeyToHashFacts.

(* ===================================================================== *)
(** * More facts about the socket class *)
(* ===================================================================== *)

Section ElectrumWSMoreFacts.
Import Js ElectrumWS.



Lemma substring_all (s : string) :
  String.substring 0 (String.length s) s = s.
Proof. induction s as [|c s IH]; cbn; [reflexivity | now rewrite IH]. Qed.

Lemma string_length_append (a b : string) :
  String.length (a +++ b) = String.length a + String.length b.
Proof.
  induction a as [|c a IH]; [reflexivity|].
  rewrite append_cons. cbn [String.length]. now rewrite IH.
Qed.

Lemma substring_after (a b : string) :
  String.substring (String.length a) (String.length b) (a +++ b) = b.
Proof.
  induction a as [|c a IH].
  - rewrite append_nil_l. apply substring_all.
  - rewrite append_cons. cbn [String.length String.substring]. exact IH.
Qed.

Lemma endsWith_append (a b : string) : endsWith (a +++ b) b = true.
Proof.
  unfold endsWith. rewrite string_length_append.
  destruct (Nat.leb_spec (String.length b) (String.length a + String.length b));
    [|lia].
  replace (String.length a + String.length b - String.length b)
    with (String.length a) by lia.
  rewrite substring_after. apply String.eqb_refl.
Qed.

Lemma endsWith_subscribe (method : string) :
  endsWith (method +++ ".subscribe") "subscribe" = true.
Proof.
  change ".subscribe" with ("." +++ "subscribe").
  rewrite <- append_assoc. apply endsWith_append.
Qed.

(** A message without an [id] that is routed by [key]. *)
Lemma onMessage_push (method : string) (args : list json) (ws : t) :
  _onMessage (JObj [("method", JStr (method +++ ".subscribe"));
                    ("params", JArr args)]) ws
  = match _subscriptions ws
          !! subscriptionKey (method +++ ".subscribe") (head args) with
    | Some callback => (invoke callback args ws, Normal)
    | None => (ws, Normal)
    end.
Proof.
  cbn [_onMessage]. rewrite settleRequest_none by reflexivity.
  unfold routeSubscription. cbn [getProp assoc String.eqb Ascii.eqb Bool.eqb].
  rewrite endsWith_subscribe. cbn [firstElement spread].
  destruct (_subscriptions ws !! _); reflexivity.
Qed.

Lemma request_subscriptions draws method params ws p ws' :
  request draws method params ws = Some (p, ws') ->
  _subscriptions ws' = _subscriptions ws.
Proof.
  unfold request. destruct (pickId draws (_requests ws)); [|discriminate].
  intros [= _ <-]. reflexivity.
Qed.

(** X5: after [subscribe(method, callback, ...params)], a pushed message
    [{method: method + ".subscribe", params: args}] whose first argument
    gives the routing key of the subscription invokes [callback] with
    exactly [args], once, and nothing else changes. *)
Theorem subscribe_then_push (draws : list Z) (method : string)
    (callback : callbackRef) (params args : list json) (ws ws' : t)
    (p : promiseRef) :
  subscribe draws method callback params ws = Some (p, ws') ->
  subscriptionKey (method +++ ".subscribe") (head args)
  = subscriptionKey (method +++ ".subscribe") (head params) ->
  _onMessage (JObj [("method", JStr (method +++ ".subscribe"));
                    ("params", JArr args)]) ws'
  = (invoke callback args ws', Normal)
  /\ calls (invoke callback args ws') = calls ws' ++ [(callback, args)].
Proof.
  unfold subscribe. intros Hsub Hkey.
  apply request_subscriptions in Hsub. cbn [_subscriptions set_subscriptions] in Hsub.
  rewrite onMessage_push, Hkey, Hsub, lookup_insert_eq. split; reflexivity.
Qed.

Lemma subscribe_then_push_witness :
  exists ws',
    subscribe [7%Z] "blockchain.scripthash" 0 [JStr "00ff"] empty
    = Some (0, ws')
    /\ _onMessage
         (JObj [("method", JStr "blockchain.scripthash.subscribe");
                ("params", JArr [JStr "00ff"; JStr "status"])]) ws'
       = (invoke 0 [JStr "00ff"; JStr "status"] ws', Normal).
Proof.
  eexists. split; [reflexivity|].
  eapply (subscribe_then_push [7%Z] "blockchain.scripthash" 0
            [JStr "00ff"] [JStr "00ff"; JStr "status"] empty);
    reflexivity.
Defined.

(** X6: after [unsubscribe(method, ...params)], a pushed message with the
    routing key of the subscription invokes no callback and changes
    nothing; the request that [unsubscribe] sends has the method
    [method + ".subscribe.unsubscribe"]. *)
Theorem unsubscribe_then_push (draws : list Z) (method : string)
    (params args : list json) (ws ws' : t) (p : promiseRef) :
  unsubscribe draws method params ws = Some (p, ws') ->
  subscriptionKey (method +++ ".subscribe") (head args)
  = subscriptionKey (method +++ ".subscribe") (head params) ->
  _onMessage (JObj [("method", JStr (method +++ ".subscribe"));
                    ("params", JArr args)]) ws'
  = (ws', Normal)
  /\ exists payload,
       sent ws' = sent ws ++ [payload]
       /\ getProp "method" payload
          = Some (JStr ((method +++ ".subscribe") +++ ".unsubscribe")).
Proof.
  unfold unsubscribe. intros Hsub Hkey. split.
  - apply request_subscriptions in Hsub.
    cbn [_subscriptions set_subscriptions] in Hsub.
    rewrite onMessage_push, Hkey, Hsub, lookup_delete_eq. reflexivity.
  - unfold request in Hsub. cbn [_requests set_subscriptions] in Hsub.
    destruct (pickId draws (_requests ws)); [|discriminate].
    injection Hsub as _ <-. eexists. split; reflexivity.
Qed.

Lemma unsubscribe_then_push_witness :
  exists ws',
    unsubscribe [8%Z] "blockchain.headers" [] Samples.pinging = Some (1, ws')
    /\ _onMessage Samples.headerPush ws' = (ws', Normal).
Proof.
  eexists. split; [reflexivity|].
  eapply (unsubscribe_then_push [8%Z] "blockchain.headers" []
            [JObj [("height", JNum 5)]] Samples.pinging);
    reflexivity.
Defined.





End ElectrumWSMoreFacts.

(* ===================================================================== *)
(** * More facts about the chain query facade *)
(* ===================================================================== *)

Section SortFacts.
Import Js ElectrumApi Wallet.
Context {A : Type}.
Variable key : A -> Z.

Local Abbreviation byKeyDescending := (fun a b : A => (key b - key a)%Z).
Local Abbreviation notBefore := (fun a b : A => (key b <= key a)%Z).

Lemma sortInsert_sorted (x : A) (l : list A) :
  StronglySorted notBefore l ->
  StronglySorted notBefore (sortInsert byKeyDescending x l).
Proof.
  induction 1 as [|y l Hsorted IH Hall]; cbn [sortInsert].
  - repeat constructor.
  - destruct (Z.leb_spec (key y - key x) 0).
    + constructor; [constructor; assumption|].
      constructor; [lia|].
      eapply List.Forall_impl; [|exact Hall]. cbn. intros b Hb. lia.
    + constructor; [exact IH|].
      apply List.Forall_forall. intros b Hb.
      apply (Permutation_in _ (sortInsert_perm _ x l)) in Hb.
      destruct Hb as [<-|Hb]; [lia|].
      rewrite List.Forall_forall in Hall. exact (Hall b Hb).
Qed.

Lemma sort_sorted (l : list A) :
  StronglySorted notBefore (sort byKeyDescending l).
Proof.
  induction l as [|x l IH]; [constructor|].
  unfold sort in *. cbn [fold_right]. apply sortInsert_sorted. exact IH.
Qed.

Lemma sortInsert_same_key (k : Z) (x : A) (l : list A) :
  List.filter (fun y => (key y =? k)%Z) (sortInsert byKeyDescending x l)
  = List.filter (fun y => (key y =? k)%Z) (x :: l).
Proof.
  induction l as [|y l IH]; cbn [sortInsert]; [reflexivity|].
  destruct (Z.leb_spec (key y - key x) 0); [reflexivity|].
  cbn [List.filter] in *. rewrite IH.
  destruct (Z.eqb_spec (key x) k), (Z.eqb_spec (key y) k);
    try reflexivity. lia.
Qed.

Lemma sort_same_key (k : Z) (l : list A) :
  List.filter (fun y => (key y =? k)%Z) (sort byKeyDescending l)
  = List.filter (fun y => (key y =? k)%Z) l.
Proof.
  induction l as [|x l IH]; [reflexivity|].
  unfold sort in *. cbn [fold_right]. rewrite sortInsert_same_key.
  cbn [List.filter]. now rewrite IH.
Qed.

End SortFacts.

Section HistoryOrderFacts.
Import Js ElectrumApi Wallet.

(** X8: the history is fetched newest first: [getHistory] goes through
    the receipts rearranged by descending height, a receipt without a
    height or with the height 0 counting as the greatest height, and
    receipts of the same height keeping their order. *)
Theorem sortedHistory_newest_first (history : list Receipt) :
  Permutation (sortedHistory history) history
  /\ StronglySorted (fun a b => (heightOrMax b <= heightOrMax a)%Z)
       (sortedHistory history)
  /\ forall k,
       List.filter (fun entry => (heightOrMax entry =? k)%Z)
                   (sortedHistory history)
       = List.filter (fun entry => (heightOrMax entry =? k)%Z) history.
Proof.
  unfold sortedHistory. split; [apply sort_perm|].
  split; [apply (sort_sorted heightOrMax)
         | intros k; apply (sort_same_key heightOrMax k)].
Qed.

(** A receipt of height -1 goes last, one of height 0 first. *)
Example sortedHistory_mempool_heights :
  map height
    (sortedHistory [ {| tx_hash := "a"; height := Some (-1)%Z |};
                     {| tx_hash := "b"; height := Some 7%Z |};
                     {| tx_hash := "c"; height := Some 0%Z |} ])
  = [Some 0%Z; Some 7%Z; Some (-1)%Z].
Proof. reflexivity. Qed.

(** X9: [txsArray] holds the records of the ledger, each as often as the
    ledger has it, by descending block time, a record without a block
    time (or with the time 0) counting as the newest, and records of the
    same time keeping the order of the ledger. *)
Theorem txsArray_newest_first (txs : list (string * PlainTransaction)) :
  Permutation (txsArray txs) (Object_values txs)
  /\ StronglySorted (fun a b => (blockTimeOrMax b <= blockTimeOrMax a)%Z)
       (txsArray txs)
  /\ forall k,
       List.filter (fun tx => (blockTimeOrMax tx =? k)%Z) (txsArray txs)
       = List.filter (fun tx => (blockTimeOrMax tx =? k)%Z)
                     (Object_values txs).
Proof.
  unfold txsArray. split; [apply sort_perm|].
  split; [apply (sort_sorted blockTimeOrMax)
         | intros k; apply (sort_same_key blockTimeOrMax k)].
Qed.

End HistoryOrderFacts.

Section ElectrumApiMoreFacts.
Import Js ElectrumApi.
Context {Network : Type} {lib : BitcoinJS Network}.
Context {World : Type} {socket : Socket World}.
Variable network : Network.

Lemma mapIndexed_length {X Y : Type} (f : X -> Z -> Y) (i : Z) (l : list X) :
  List.length (mapIndexed f i l) = List.length l.
Proof.
  revert i. induction l as [|x l IH]; intros i; cbn [mapIndexed List.length];
    [reflexivity | now rewrite IH].
Qed.





Lemma getBlockHeader_height h w header w' :
  getBlockHeader h w = (inl header, w') -> blockHeight header = h.
Proof.
  unfold getBlockHeader. destruct (block_header h w) as [[raw|e] w1];
    cbn [bind]; [|discriminate].
  destruct (Block_fromHex raw); cbn [bind]; [|discriminate].
  intros [= <- _]. reflexivity.
Qed.


(** *** The records that [getHistory] returns *)

Lemma heightsOf_In (k : Z) (entries : list Receipt) :
  In k (heightsOf entries) ->
  (0 < k)%Z /\ exists entry, In entry entries /\ height entry = Some k.
Proof.
  unfold heightsOf. induction entries as [|entry rest IH]; [intros []|].
  cbn [omap list_omap]. unfold positiveHeight at 1.
  destruct (height entry) as [h|] eqn:Hh.
  - destruct (Z.ltb_spec 0 h).
    + intros [<-|Hin].
      * split; [assumption|]. exists entry. split; [left; reflexivity | exact Hh].
      * destruct (IH Hin) as (Hpos & e & He & Hk).
        split; [exact Hpos|]. exists e. split; [right; exact He | exact Hk].
    + intros Hin. destruct (IH Hin) as (Hpos & e & He & Hk).
      split; [exact Hpos|]. exists e. split; [right; exact He | exact Hk].
  - intros Hin. destruct (IH Hin) as (Hpos & e & He & Hk).
    split; [exact Hpos|]. exists e. split; [right; exact He | exact Hk].
Qed.

Lemma fetchBlockHeaders_keys (heights : list Z) :
  forall m w m' w' k header,
    fetchBlockHeaders heights m w = (m', w') ->
    m' !! k = Some header ->
    m !! k = Some header
    \/ (In k heights /\ blockHeight header = k).
Proof.
  induction heights as [|h rest IH]; intros m w m' w' k header;
    cbn [fetchBlockHeaders].
  - intros [= <- _] H. left. exact H.
  - pose proof (getBlockHeader_height h w) as Hheight.
    destruct (getBlockHeader h w) as [[fetched|e] w1].
    + intros Hrun Hk. destruct (IH _ _ _ _ _ _ Hrun Hk) as [Hm|[Hin Hb]].
      * rewrite lookup_insert in Hm.
        destruct (decide (h = k)) as [->|Hne].
        -- injection Hm as <-. right. split; [left; reflexivity|].
           now apply (Hheight _ w1).
        -- left. exact Hm.
      * right. split; [right; exact Hin | exact Hb].
    + intros [= <- _] H. left. exact H.
Qed.

Lemma attachHeader_recordOf m (entries : list Receipt) entry raw :
  In entry entries ->
  (forall k header, m !! k = Some header -> (0 < k)%Z) ->
  block_hash raw = None /\ block_height raw = None /\ block_time raw = None ->
  History.recordOf entries (attachHeader m entry raw).
Proof.
  intros Hin Hpositive (Hhash & Hheight & Htime).
  assert (Hraw : block_height raw = None /\ block_hash raw = None
                 /\ block_time raw = None) by (repeat split; assumption).
  unfold attachHeader.
  destruct (height entry) as [h|] eqn:Hh; cbn [mbind option_bind];
    [|left; exact Hraw].
  destruct (m !! h) as [header|] eqn:Hm; [|left; exact Hraw].
  right. exists entry, h. repeat split; try assumption.
  - exact (Hpositive _ _ Hm).
  - discriminate.
  - discriminate.
Qed.

Lemma fetchTransactions_records (all : list Receipt) m :
  (forall k header, m !! k = Some header -> (0 < k)%Z) ->
  forall entries acc w txs w',
    (forall entry, In entry entries -> In entry all) ->
    fetchTransactions network entries m acc w = (txs, w') ->
    exists fetched,
      txs = acc ++ fetched
      /\ List.length fetched <= List.length entries
      /\ Forall (History.recordOf all) fetched.
Proof.
  intros Hpositive entries.
  induction entries as [|entry rest IH]; intros acc w txs w' Hall;
    cbn [fetchTransactions].
  - intros [= <- _]. exists []. rewrite app_nil_r. repeat split; constructor.
  - pose proof (getTransaction_unconfirmed network (tx_hash entry) w) as Hraw.
    destruct (getTransaction network (tx_hash entry) None w) as [[raw|e] w1].
    + intros Hrun.
      destruct (IH _ _ _ _ (fun e He => Hall e (or_intror He)) Hrun)
        as (fetched & -> & Hlen & Hrecords).
      exists (attachHeader m entry raw :: fetched).
      rewrite <- app_assoc. cbn [app List.length].
      repeat split; [lia|]. constructor; [|exact Hrecords].
      apply attachHeader_recordOf;
        [apply Hall; left; reflexivity | exact Hpositive
        | exact (Hraw raw w1 eq_refl)].
    + intros [= <- _]. exists []. rewrite app_nil_r.
      repeat split; [cbn; lia | constructor].
Qed.

(** X12: once the receipts of a script are fetched, [getHistory] returns
    a list (it does not fail), of at most one record a receipt; a record
    has no block fields, or it has the height of one of the receipts, a
    positive one, with the hash and the time of a block. *)
Theorem getHistory_records (script_ : string + list byte) (w w0 : World)
    (history : list Receipt) :
  getReceipts script_ w = (inl history, w0) ->
  exists txs w',
    getHistory network script_ w = (inl txs, w')
    /\ List.length txs <= List.length history
    /\ Forall (History.recordOf history) txs.
Proof.
  intros Hreceipts. unfold getHistory. rewrite Hreceipts.
  destruct (fetchBlockHeaders (heightsOf (sortedHistory history)) ∅ w0)
    as [m w1] eqn:Hheaders.
  destruct (fetchTransactions network (sortedHistory history) m [] w1)
    as [txs w2] eqn:Htxs.
  exists txs, w2. split; [reflexivity|].
  assert (Hpositive : forall k header, m !! k = Some header -> (0 < k)%Z).
  { intros k header Hk.
    destruct (fetchBlockHeaders_keys _ _ _ _ _ _ _ Hheaders Hk) as [H|[H _]].
    - rewrite lookup_empty in H. discriminate.
    - exact (proj1 (heightsOf_In _ _ H)). }
  destruct (fetchTransactions_records history m Hpositive _ _ _ _ _
              (fun e He => Permutation_in e (sort_perm _ history) He) Htxs)
    as (fetched & -> & Hlen & Hrecords).
  cbn [app]. split; [|exact Hrecords].
  unfold sortedHistory in Hlen.
  rewrite (Permutation_length (sort_perm _ history)) in Hlen. exact Hlen.
Qed.

End ElectrumApiMoreFacts.

Section ElectrumApiMoreExamples.
Import Js ElectrumApi Samples.


Lemma getHistory_records_witness :
  exists txs w',
    getHistory (lib := toyLib)
      (socket := toySocket threeReceipts (Z.eqb 300) (fun _ => false) JNull)
      tt (inr []) []
    = (inl txs, w')
    /\ List.length txs <= 3
    /\ Forall (History.recordOf threeReceipts) txs.
Proof.
  exact (getHistory_records (lib := toyLib)
           (socket := toySocket threeReceipts (Z.eqb 300) (fun _ => false)
                        JNull)
           tt (inr []) [] ["get_history"] threeReceipts eq_refl).
Defined.

End ElectrumApiMoreExamples.

(* ===================================================================== *)
(** * More facts about the wallet on [ElectrumApi] *)
(* ===================================================================== *)

Section LedgerMergeFacts.
Import Js ElectrumApi Wallet.
Context {Network : Type} {lib : BitcoinJS Network}.
Context {World : Type} {socket : Socket World}.
Variable network : Network.

Lemma assoc_objSet {V : Type} (k k' : string) (v : V) (o : list (string * V)) :
  assoc k' (objSet k v o) = if String.eqb k k' then Some v else assoc k' o.
Proof.
  destruct (String.eqb_spec k k') as [->|Hne].
  - apply assoc_objSet_eq.
  - now apply assoc_objSet_ne.
Qed.

Lemma assoc_stored_by_txid (fetched : list PlainTransaction)
    (acc : list (string * PlainTransaction)) (id : string) :
  assoc id (fold_left (fun o tx => objSet (txid tx) tx o) fetched acc)
  = match List.find (fun tx => String.eqb (txid tx) id) (rev fetched) with
    | Some tx => Some tx
    | None => assoc id acc
    end.
Proof.
  induction fetched as [|tx fetched IH] using rev_ind; [reflexivity|].
  rewrite fold_left_app, rev_unit. cbn [fold_left List.find].
  rewrite assoc_objSet, IH. destruct (String.eqb (txid tx) id); reflexivity.
Qed.

Lemma keys_objSet {V : Type} (k k' : string) (v : V) (o : list (string * V)) :
  In k' (map fst (objSet k v o)) <-> k' = k \/ In k' (map fst o).
Proof.
  induction o as [|[k0 v0] o IH]; cbn [objSet map fst In];
    [intuition congruence|].
  destruct (String.eqb_spec k k0) as [->|Hne]; cbn [map fst In];
    [intuition congruence | rewrite IH; intuition congruence].
Qed.

Lemma keys_objSet_NoDup {V : Type} (k : string) (v : V) (o : list (string * V)) :
  List.NoDup (map fst o) -> List.NoDup (map fst (objSet k v o)).
Proof.
  induction o as [|[k0 v0] o IH]; cbn [objSet map fst].
  - intros _. repeat constructor. intros [].
  - intros H. apply NoDup_cons_iff in H as [Hfresh H].
    destruct (String.eqb_spec k k0) as [->|Hne]; cbn [map fst].
    + constructor; assumption.
    + constructor; [|exact (IH H)].
      rewrite keys_objSet. intros [->|Hin]; [congruence | tauto].
Qed.

Lemma assoc_objSpread {V : Type} (target source : list (string * V))
    (k : string) :
  List.NoDup (map fst source) ->
  assoc k (objSpread target source)
  = match assoc k source with
    | Some v => Some v
    | None => assoc k target
    end.
Proof.
  unfold objSpread. intros Hnodup. revert target.
  induction source as [|[k1 v1] rest IH]; intros target; [reflexivity|].
  cbn [map fst] in Hnodup. apply NoDup_cons_iff in Hnodup as [Hfresh Hnodup].
  cbn [fold_left fst snd assoc]. rewrite (IH Hnodup), assoc_objSet.
  rewrite (String.eqb_sym k k1).
  destruct (String.eqb_spec k1 k) as [->|Hne].
  - now rewrite (assoc_not_in _ _ Hfresh).
  - reflexivity.
Qed.

Lemma txsObj_keys_NoDup (fetched : list PlainTransaction) :
  List.NoDup
    (map fst (fold_left (fun o tx => objSet (txid tx) tx o) fetched
                        ([] : list (string * PlainTransaction)))).
Proof.
  induction fetched as [|tx fetched IH] using rev_ind; [constructor|].
  rewrite fold_left_app. cbn [fold_left]. now apply keys_objSet_NoDup.
Qed.

(** X13: [fetchTxHistory] stores every record that [getHistory] returned
    under its [txid], the last one when several have the same [txid],
    over a record already stored under it; every other record of the
    ledger stays; the count returned is the number of records fetched.
    When [getHistory] fails the ledger is left as it is. *)
Theorem fetchTxHistory_merges (scriptPubKey_ : list byte)
    (txs_ : list (string * PlainTransaction)) (w : World) :
  match getHistory network (inr scriptPubKey_) w with
  | (inr e, w') =>
      fetchTxHistory network scriptPubKey_ (txs_, w) = (inr e, (txs_, w'))
  | (inl fetched, w') =>
      exists txs',
        fetchTxHistory network scriptPubKey_ (txs_, w)
        = (inl (List.length fetched), (txs', w'))
        /\ forall id,
             assoc id txs'
             = match List.find (fun tx => String.eqb (txid tx) id)
                               (rev fetched) with
               | Some tx => Some tx
               | None => assoc id txs_
               end
  end.
Proof.
  unfold fetchTxHistory.
  destruct (getHistory network (inr scriptPubKey_) w) as [[fetched|e] w'];
    [|reflexivity].
  eexists. split; [reflexivity|]. intros id.
  rewrite assoc_objSpread by apply txsObj_keys_NoDup.
  rewrite assoc_stored_by_txid. cbn [assoc].
  destruct (List.find _ (rev fetched)); reflexivity.
Qed.

(** X14: an address whose history is not empty is found inactive when
    the first transaction of the history (in the order of fetching)
    cannot be fetched: [getHistory] then returns no record,
    [updateAddressInfoActivity] gives [false] and the ledger is left as it
    is. *)
Theorem updateAddressInfoActivity_first_failure (addressInfo : AddressInfo)
    (txs_ : list (string * PlainTransaction)) (w w0 w1 w2 : World)
    (history rest : list Receipt) (entry : Receipt)
    (m : gmap Z PlainBlockHeader) (e : exn) :
  getReceipts (inr (scriptPubKey addressInfo)) w = (inl history, w0) ->
  sortedHistory history = entry :: rest ->
  fetchBlockHeaders (heightsOf (sortedHistory history)) ∅ w0 = (m, w1) ->
  getTransaction network (tx_hash entry) None w1 = (inr e, w2) ->
  updateAddressInfoActivity network addressInfo (txs_, w)
  = (inl false, (txs_, w2)).
Proof.
  intros Hreceipts Hsorted Hheaders Hfail.
  unfold updateAddressInfoActivity, fetchTxHistory, getHistory.
  rewrite Hreceipts, Hheaders, Hsorted. cbn [fetchTransactions].
  rewrite Hfail. reflexivity.
Qed.

End LedgerMergeFacts.

Section LedgerMergeExamples.
Import Js ElectrumApi Wallet Samples.

Lemma updateAddressInfoActivity_first_failure_witness :
  updateAddressInfoActivity (lib := toyLib)
    (socket := toySocket threeReceipts (fun _ => false) (String.eqb "bb") JNull)
    tt (bareAddressInfo 0) ([("A", recordA)], [])
  = (inl false,
     ([("A", recordA)],
      ["get_history"; "header 500"; "header 300"; "get bb"])).
Proof.
  eapply (updateAddressInfoActivity_first_failure (lib := toyLib)
            (socket := toySocket threeReceipts (fun _ => false)
                         (String.eqb "bb") JNull)
            tt (bareAddressInfo 0) [("A", recordA)] []);
    reflexivity.
Defined.

End LedgerMergeExamples.

Section ScanMoreFacts.
Import Js ElectrumApi Wallet Ledger.
Context {S : Type}.
Variable probe : AddressInfo -> S -> result bool * S.
Variable after : AddressInfo -> S -> result unit * S.
Variable newAddressInfo : nat -> AddressInfo.
Variable gap : nat.

Lemma laterEntry_refl (a : AddressInfo) : laterEntry a a.
Proof. repeat split; auto. Qed.

Lemma laterEntry_all_refl (l : list AddressInfo) : Forall2 laterEntry l l.
Proof. induction l; constructor; [apply laterEntry_refl | assumption]. Qed.

Lemma laterEntry_probed (a : bool) (addressInfo : AddressInfo) :
  active addressInfo = false -> laterEntry addressInfo (setActive a addressInfo).
Proof. intros H. repeat split. rewrite H. discriminate. Qed.

Lemma rescan_known (todo : list AddressInfo) :
  forall seen width s l width' r s',
    rescan probe after gap seen todo width s = ((l, width', r), s') ->
    exists todo', l = seen ++ todo' /\ Forall2 laterEntry todo todo'.
Proof.
  induction todo as [|addressInfo rest IH];
    intros seen width s l width' r s'; cbn [rescan].
  - intros [= <- _ _ _]. exists []. rewrite app_nil_r. split; constructor.
  - destruct (active addressInfo) eqn:Hactive.
    + intros Hrun. destruct (IH _ _ _ _ _ _ _ Hrun) as (rest' & -> & Hrest).
      exists (addressInfo :: rest'). rewrite <- app_assoc.
      split; [reflexivity|]. constructor; [apply laterEntry_refl | exact Hrest].
    + destruct (probe addressInfo s) as [[a|e] s1].
      * destruct (Nat.leb gap (if a then width else Datatypes.S width)).
        -- intros [= <- _ _ _]. eexists. split; [reflexivity|].
           constructor; [now apply laterEntry_probed | apply laterEntry_all_refl].
        -- destruct (after (setActive a addressInfo) s1) as [[[]|e] s2].
           ++ intros Hrun.
              destruct (IH _ _ _ _ _ _ _ Hrun) as (rest' & -> & Hrest).
              exists (setActive a addressInfo :: rest'). rewrite <- app_assoc.
              split; [reflexivity|].
              constructor; [now apply laterEntry_probed | exact Hrest].
           ++ intros [= <- _ _ _]. eexists. split; [reflexivity|].
              constructor;
                [now apply laterEntry_probed | apply laterEntry_all_refl].
      * intros [= <- _ _ _]. eexists. split; [reflexivity|].
        apply laterEntry_all_refl.
Qed.

Lemma deriveNext_new (fuel : nat) :
  forall addresses width s l width' r s',
    deriveNext probe after newAddressInfo gap fuel addresses width s
    = ((l, width', r), s') ->
    exists new,
      l = addresses ++ new
      /\ Forall2 (fun i entry => exists a, entry = setActive a (newAddressInfo i))
                 (seq (List.length addresses) (List.length new)) new
      /\ List.length new <= fuel
      /\ (r = Finished -> gap <= width').
Proof.
  induction fuel as [|fuel IH]; intros addresses width s l width' r s';
    cbn [deriveNext].
  - destruct (Nat.leb_spec gap width).
    + intros [= <- <- <- _]. exists []. rewrite app_nil_r.
      repeat split; [constructor | auto..].
    + intros [= <- <- <- _]. exists []. rewrite app_nil_r.
      repeat split; [constructor | auto | discriminate].
  - destruct (Nat.leb_spec gap width).
    + intros [= <- <- <- _]. exists []. rewrite app_nil_r.
      repeat split; [constructor | cbn; lia | auto].
    + destruct (probe (newAddressInfo (List.length addresses)) s)
        as [[a|e] s1].
      * destruct (Nat.leb_spec gap (if a then width else Datatypes.S width)).
        -- intros [= <- <- <- _]. eexists. split; [reflexivity|].
           repeat split; [|cbn; lia | auto].
           cbn [List.length seq]. constructor; [eauto | constructor].
        -- destruct (after _ s1) as [[[]|e] s2].
           ++ intros Hrun.
              destruct (IH _ _ _ _ _ _ _ Hrun) as (new & -> & Hnew & Hlen & Hfin).
              rewrite length_app in Hnew. cbn [List.length] in Hnew.
              rewrite Nat.add_1_r in Hnew.
              eexists (_ :: new). rewrite <- app_assoc.
              split; [reflexivity|]. cbn [List.length seq].
              repeat split; [|lia | exact Hfin].
              constructor; [eauto | exact Hnew].
           ++ intros [= <- <- <- _]. eexists. split; [reflexivity|].
              repeat split; [|cbn; lia | discriminate].
              cbn [List.length seq]. constructor; [eauto | constructor].
      * intros [= <- <- <- _]. exists []. rewrite app_nil_r.
        repeat split; [constructor | cbn; lia | discriminate].
Qed.

(** X15: however the requests answer, and whether the scan of a chain
    finishes, throws or is still running, the list it leaves is the known
    entries in their order, each with the same script, address and
    index and still active if it was, followed by new entries derived
    for the next indices, one after the other, at most one an iteration;
    the scan finishes only when the count of inactive addresses has
    reached the gap. *)
Theorem scanChain_keeps_known (fuel : nat) (addresses l : list AddressInfo)
    (s s' : S) (width : nat) (r : run) :
  scanChain probe after newAddressInfo gap fuel addresses s
  = ((l, width, r), s') ->
  exists known new,
    l = known ++ new
    /\ Forall2 laterEntry addresses known
    /\ Forall2 (fun i entry => exists a, entry = setActive a (newAddressInfo i))
               (seq (List.length addresses) (List.length new)) new
    /\ List.length new <= fuel
    /\ (r = Finished -> gap <= width).
Proof.
  unfold scanChain.
  destruct (rescan probe after gap [] addresses 0 s) as [[[l0 w0] r0] s0]
    eqn:Hrescan.
  destruct (rescan_known _ _ _ _ _ _ _ _ Hrescan) as (known & Hl0 & Hknown).
  cbn [app] in Hl0. subst l0.
  pose proof (Forall2_length _ _ _ Hknown) as Hlen.
  destruct r0.
  - intros Hrun.
    destruct (deriveNext_new _ _ _ _ _ _ _ _ Hrun)
      as (new & -> & Hnew & Hfuel & Hfin).
    exists known, new. rewrite Hlen. repeat split; assumption.
  - intros [= <- <- <- _]. exists known, []. rewrite app_nil_r.
    repeat split; [exact Hknown | constructor | cbn; lia | discriminate].
  - intros [= <- <- <- _]. exists known, []. rewrite app_nil_r.
    repeat split; [exact Hknown | constructor | cbn; lia | discriminate].
Qed.

End ScanMoreFacts.

Section NextAddressFacts.
Import Js ElectrumApi Wallet Ledger.
Context {S : Type}.
Variable probe : AddressInfo -> S -> result bool * S.
Variable after : AddressInfo -> S -> result unit * S.
Variable newAddressInfo : nat -> AddressInfo.
Variable act : nat -> bool.
Hypothesis probe_act :
  forall addressInfo s, fst (probe addressInfo s) = inl (act (ai_index addressInfo)).
Hypothesis after_done : forall addressInfo s, fst (after addressInfo s) = inl tt.
Hypothesis new_index : forall i, ai_index (newAddressInfo i) = i.



End NextAddressFacts.

Section ScanMoreExamples.
Import Js ElectrumApi Wallet Ledger Samples.

Lemma scanChain_keeps_known_witness :
  exists known new,
    derivedEntries bareAddressInfo threeActive 0 4 = known ++ new
    /\ Forall2 laterEntry [] known
    /\ Forall2 (fun i entry => exists a, entry = setActive a (bareAddressInfo i))
               (seq 0 (List.length new)) new
    /\ List.length new <= 10
    /\ (Finished = Finished -> 1 <= 1).
Proof.
  exact (scanChain_keeps_known (probeBy threeActive) nothingAfter
           bareAddressInfo 1 10 [] _ tt tt 1 Finished eq_refl).
Defined.


End ScanMoreExamples.

Section WatcherFacts.
Import Js ElectrumApi Wallet.
Context {Network : Type} {lib : BitcoinJS Network}.
Context {World : Type} {socket : Socket World}.
Context {Node : Type} {bip32 : Bip32 Node}.
Variable network : Network.

(** X17: when the history request for the first external address is
    rejected, the watcher of a wallet without external entries stops
    with that error: no entry is added to either chain, the ledger is
    left as it is, and the internal chain is not scanned (no further
    request is made). *)
Theorem accountExtPubKey_request_rejected (fuel : nat) (xPub : Node)
    (wallet : Wallet.t) (w w' : World) (e : exn) :
  ext_addresses wallet = [] ->
  scripthash_get_history
    (pubKeyToHash (inr (scriptPubKey (deriveAddressInfo network xPub 0 0)))) w
  = (inr e, w') ->
  accountExtPubKey network (Datatypes.S fuel) (Some xPub) None wallet w
  = ((wallet, Threw e), w').
Proof.
  intros Hext Hrejected. destruct wallet as [ext int txs_].
  cbn [ext_addresses] in Hext. subst ext.
  unfold accountExtPubKey, scanChainOf, scanChain.
  cbn [ext_addresses int_addresses txs rescan deriveNext
       INACTIVE_ADDRESS_GAP Nat.leb List.length].
  unfold updateAddressInfoActivity, fetchTxHistory, getHistory, getReceipts.
  rewrite Hrejected. reflexivity.
Qed.

End WatcherFacts.

Section WatcherExamples.
Import Js ElectrumApi Wallet Samples.

Lemma accountExtPubKey_request_rejected_witness :
  accountExtPubKey (lib := toyLib) (socket := Scenarios.offline)
    (bip32 := pathNodes) tt 10 (Some []) None
    {| ext_addresses := []; int_addresses := []; txs := [("A", recordA)] |} []
  = (({| ext_addresses := []; int_addresses := [];
         txs := [("A", recordA)] |}, Threw (Error "offline")),
     ["get_history 0000"]).
Proof.
  apply (accountExtPubKey_request_rejected (lib := toyLib)
           (socket := Scenarios.offline) (bip32 := pathNodes) tt 9 []
           {| ext_addresses := []; int_addresses := [];
              txs := [("A", recordA)] |} []);
    reflexivity.
Defined.

End WatcherExamples.

Section AddTransactionFacts.
Import Js ElectrumApi Wallet Ledger.

Lemma laterEntry_trans (a b c : AddressInfo) :
  laterEntry a b -> laterEntry b c -> laterEntry a c.
Proof.
  intros (H1 & H2 & H3 & H4) (G1 & G2 & G3 & G4).
  repeat split; try congruence. auto.
Qed.

Lemma laterEntry_all_trans (l1 l2 l3 : list AddressInfo) :
  Forall2 laterEntry l1 l2 -> Forall2 laterEntry l2 l3 ->
  Forall2 laterEntry l1 l3.
Proof.
  intros H. revert l3. induction H as [|a b l1 l2 Hab _ IH]; intros l3 H23;
    inversion H23; subst; constructor.
  - eapply laterEntry_trans; eassumption.
  - apply IH. assumption.
Qed.

Lemma laterEntry_addresses (l l' : list AddressInfo) :
  Forall2 laterEntry l l' -> map ai_address l' = map ai_address l.
Proof.
  induction 1 as [|a b l l' (_ & Haddress & _) _ IH]; [reflexivity|].
  cbn [map]. now rewrite Haddress, IH.
Qed.

Lemma activeAt_later (a : string) (l l' : list AddressInfo) :
  Forall2 laterEntry l l' -> activeAt a l -> activeAt a l'.
Proof.
  induction 1 as [|x y l l' (_ & Haddress & _ & Hactive) _ IH];
    intros (entry & Hin & Ha & Hact); [destruct Hin|].
  destruct Hin as [->|Hin].
  - exists y. repeat split; [left; reflexivity | congruence | auto].
  - destruct IH as (entry' & Hin' & Ha' & Hact'); [exists entry; auto|].
    exists entry'. repeat split; [right; exact Hin' | exact Ha' | exact Hact'].
Qed.

Lemma markActive_some (a : string) (l l' : list AddressInfo) :
  SmartBitWallet.markActive a l = Some l' ->
  Forall2 laterEntry l l' /\ activeAt a l'.
Proof.
  revert l'. induction l as [|x l IH]; intros l';
    cbn [SmartBitWallet.markActive]; [discriminate|].
  destruct (String.eqb_spec (ai_address x) a) as [Ha|_].
  - intros [= <-]. split.
    + constructor; [repeat split | apply laterEntry_all_refl].
    + exists (setActive true x). repeat split; [left; reflexivity | exact Ha].
  - destruct (SmartBitWallet.markActive a l) as [l0|]; [|discriminate].
    intros [= <-]. destruct (IH l0 eq_refl) as [Hlater (e & Hin & Ha & Hact)].
    split; [constructor; [apply laterEntry_refl | exact Hlater]|].
    exists e. repeat split; [right; exact Hin | exact Ha | exact Hact].
Qed.

Lemma markActive_none (a : string) (l : list AddressInfo) :
  SmartBitWallet.markActive a l = None -> ~ In a (map ai_address l).
Proof.
  induction l as [|x l IH]; cbn [SmartBitWallet.markActive map In]; [tauto|].
  destruct (String.eqb_spec (ai_address x) a) as [Ha|Hne]; [discriminate|].
  destruct (SmartBitWallet.markActive a l); [discriminate|].
  intros _ [H|H]; [congruence | exact (IH eq_refl H)].
Qed.

Lemma markOutputs_later (outputs_ : list PlainOutput) :
  forall ext int ext' int',
    markOutputs outputs_ ext int = (ext', int') ->
    Forall2 laterEntry ext ext' /\ Forall2 laterEntry int int'
    /\ forall output_,
         In output_ outputs_ ->
         (In (po_address output_) (map ai_address ext) ->
          activeAt (po_address output_) ext')
         /\ (~ In (po_address output_) (map ai_address ext) ->
             In (po_address output_) (map ai_address int) ->
             activeAt (po_address output_) int').
Proof.
  induction outputs_ as [|o rest IH]; intros ext int ext' int';
    cbn [markOutputs].
  - intros [= <- <-]. repeat split; try apply laterEntry_all_refl;
      intros; contradiction.
  - destruct (SmartBitWallet.markActive (po_address o) ext) as [ext1|] eqn:Hext.
    + intros Hrun. destruct (markActive_some _ _ _ Hext) as [Hl1 Hact1].
      destruct (IH _ _ _ _ Hrun) as (Hl2 & Hint & Hrest).
      split; [eapply laterEntry_all_trans; eassumption|].
      split; [exact Hint|].
      intros o' [<-|Hin].
      * split; [intros _; eapply activeAt_later; eassumption|].
        intros Hnot. exfalso. apply Hnot.
        rewrite <- (laterEntry_addresses _ _ Hl1).
        destruct Hact1 as (e & He & Ha & _). rewrite <- Ha.
        now apply in_map.
      * rewrite <- (laterEntry_addresses _ _ Hl1). exact (Hrest o' Hin).
    + pose proof (markActive_none _ _ Hext) as Hnotext.
      destruct (SmartBitWallet.markActive (po_address o) int) as [int1|]
        eqn:Hint.
      * intros Hrun. destruct (markActive_some _ _ _ Hint) as [Hl1 Hact1].
        destruct (IH _ _ _ _ Hrun) as (Hext2 & Hl2 & Hrest).
        split; [exact Hext2|].
        split; [eapply laterEntry_all_trans; eassumption|].
        intros o' [<-|Hin].
        -- split; [intros H; contradiction|].
           intros _ _. eapply activeAt_later; eassumption.
        -- rewrite <- (laterEntry_addresses _ _ Hl1). exact (Hrest o' Hin).
      * pose proof (markActive_none _ _ Hint) as Hnotint.
        intros Hrun. destruct (IH _ _ _ _ Hrun) as (Hext2 & Hint2 & Hrest).
        split; [exact Hext2|]. split; [exact Hint2|].
        intros o' [<-|Hin]; [split; intros; contradiction | exact (Hrest o' Hin)].
Qed.

(** X18: [addTransaction] stores the record under its [txid] (over a
    record already there) and leaves the other records; it keeps both
    lists of entries, with their scripts, addresses and indices, and
    never makes an active entry inactive; for each output, the address of
    the output is active afterwards in the external list when the list
    has it, and otherwise in the internal list when that one has it. *)
Theorem addTransaction_marks_and_stores (tx : PlainTransaction)
    (wallet : Wallet.t) :
  let wallet' := addTransaction tx wallet in
  assoc (txid tx) (txs wallet') = Some tx
  /\ (forall id, id <> txid tx -> assoc id (txs wallet') = assoc id (txs wallet))
  /\ Forall2 laterEntry (ext_addresses wallet) (ext_addresses wallet')
  /\ Forall2 laterEntry (int_addresses wallet) (int_addresses wallet')
  /\ forall output_,
       In output_ (outputs tx) ->
       (In (po_address output_) (map ai_address (ext_addresses wallet)) ->
        activeAt (po_address output_) (ext_addresses wallet'))
       /\ (~ In (po_address output_) (map ai_address (ext_addresses wallet)) ->
           In (po_address output_) (map ai_address (int_addresses wallet)) ->
           activeAt (po_address output_) (int_addresses wallet')).
Proof.
  unfold addTransaction.
  destruct (markOutputs (outputs tx) (ext_addresses wallet)
              (int_addresses wallet)) as [ext' int'] eqn:Hmark.
  destruct (markOutputs_later _ _ _ _ _ Hmark) as (Hext & Hint & Houtputs).
  cbn [txs ext_addresses int_addresses]. split; [apply assoc_objSet_eq|].
  split; [intros id Hne; apply assoc_objSet_ne; congruence|].
  repeat split; try assumption; apply Houtputs; assumption.
Qed.

(** An output to the one known address makes it active. *)
Example addTransaction_marks_address :
  map active
    (ext_addresses
       (addTransaction Samples.recordA
          {| ext_addresses := [Samples.bareAddressInfo 0;
                               setActive false Samples.addressX];
             int_addresses := []; txs := [] |}))
  = [false; true].
Proof. reflexivity. Qed.

End AddTransactionFacts.

Section StatusFacts.
Import Js ElectrumApi Wallet Ledger.



(** The record [A] without block, pushed again as unconfirmed (height
    0), is taken as changed; an unknown transaction as new. *)
Example classifyStatus_unconfirmed_again :
  classifyStatus
    (Some [ {| tx_hash := "A"; height := Some 0%Z |};
            {| tx_hash := "C"; height := Some 0%Z |} ])
    [("A", Samples.recordA)]
  = ([ {| tx_hash := "C"; height := Some 0%Z |} ],
     [ {| tx_hash := "A"; height := Some 0%Z |} ]).
Proof. reflexivity. Qed.

End StatusFacts.

Section BalanceFacts.
Import Js ElectrumApi Wallet Ledger.









End BalanceFacts.

Section UpdateFacts.
Import Js ElectrumWS ElectrumApi Wallet.

Lemma keys_objSet_known {V : Type} (k : string) (v old : V)
    (o : list (string * V)) :
  assoc k o = Some old -> map fst (objSet k v o) = map fst o.
Proof.
  induction o as [|[k0 v0] o IH]; cbn [assoc objSet map fst]; [discriminate|].
  destruct (String.eqb_spec k k0) as [->|Hne]; cbn [map fst]; [reflexivity|].
  intros H. now rewrite (IH H).
Qed.

Lemma no_fields_iff (partialTx : object) :
  List.filter (fun kv => negb (String.eqb (fst kv) "txid")) partialTx = []
  <-> forall k, In k (map fst partialTx) -> k = "txid".
Proof.
  induction partialTx as [|[k v] rest IH]; cbn [List.filter map fst In].
  - split; [intros _ k [] | reflexivity].
  - destruct (String.eqb_spec k "txid") as [->|Hne]; cbn [negb].
    + rewrite IH. split.
      * intros H k [<-|Hin]; [reflexivity | now apply H].
      * intros H k Hin. apply H. now right.
    + split; [discriminate|]. intros H. exfalso. apply Hne, H. now left.
Qed.

(** X21: [updateTransaction] of the wallet on [ElectrumApi] changes the
    record stored under [partialTx.txid] and nothing else: each property
    of [partialTx] but [txid] is assigned to it, its other properties
    and its [txid] stay, no record is added and the other records keep
    their values. Without a record under that key the method throws a
    [TypeError] as soon as [partialTx] has a property other than [txid],
    and does nothing if it has none. *)
Theorem updateTransaction_known_or_throws (partialTx : object)
    (txs_ : list (string * object)) :
  List.NoDup (map fst partialTx) ->
  let key := propertyKey (assoc "txid" partialTx) in
  match assoc key txs_ with
  | Some stored =>
      exists updated,
        updateTransaction partialTx txs_ = inl (objSet key updated txs_)
        /\ assoc key (objSet key updated txs_) = Some updated
        /\ (forall k, k <> "txid" ->
              assoc k updated = match assoc k partialTx with
                                | Some v => Some v
                                | None => assoc k stored
                                end)
        /\ assoc "txid" updated = assoc "txid" stored
        /\ map fst (objSet key updated txs_) = map fst txs_
        /\ (forall id, key <> id ->
              assoc id (objSet key updated txs_) = assoc id txs_)
  | None =>
      ((forall k, In k (map fst partialTx) -> k = "txid") ->
       updateTransaction partialTx txs_ = inl txs_)
      /\ ((exists k, In k (map fst partialTx) /\ k <> "txid") ->
          updateTransaction partialTx txs_ = inr TypeError)
  end.
Proof.
  intros Hnodup key. unfold updateTransaction. fold key.
  destruct (assoc key txs_) as [stored|] eqn:Hstored.
  - eexists. split; [reflexivity|]. split; [apply assoc_objSet_eq|].
    split; [|split; [|split]].
    + intros k Hk.
      rewrite assoc_assign_all by (apply NoDup_keys_filter, Hnodup).
      now rewrite assoc_without_txid.
    + rewrite assoc_assign_all by (apply NoDup_keys_filter, Hnodup).
      now rewrite txid_filtered.
    + apply (keys_objSet_known _ _ stored), Hstored.
    + intros id Hne. now apply assoc_objSet_ne.
  - split.
    + intros Honly. apply no_fields_iff in Honly. now rewrite Honly.
    + intros (k & Hin & Hne).
      destruct (List.filter _ partialTx) eqn:Hfields; [|reflexivity].
      exfalso. apply Hne. now apply (proj1 (no_fields_iff partialTx) Hfields).
Qed.

Lemma updateTransaction_known_or_throws_witness :
  exists updated,
    updateTransaction Samples.minedUpdate [("T", Samples.unconfirmedRecord)]
    = inl (objSet "T" updated [("T", Samples.unconfirmedRecord)])
    /\ assoc "block_height" updated = Some (JNum 100)
    /\ assoc "fee" updated = Some (JNum 250).
Proof.
  assert (Hnodup : List.NoDup (map fst Samples.minedUpdate)).
  { repeat constructor; cbn; intuition discriminate. }
  destruct (updateTransaction_known_or_throws Samples.minedUpdate
              [("T", Samples.unconfirmedRecord)] Hnodup)
    as (updated & Hrun & _ & Hfields & _).
  exists updated. split; [exact Hrun|]. split.
  - now rewrite (Hfields "block_height") by discriminate.
  - now rewrite (Hfields "fee") by discriminate.
Defined.

(** An update for a transaction that the ledger does not have. *)
Example updateTransaction_unknown_record :
  updateTransaction Samples.minedUpdate [] = inr TypeError
  /\ updateTransaction [("txid", JStr "T")] [] = inl [].
Proof. split; reflexivity. Qed.

(** X22: [updateTransaction] of [wallet.js] copies no property of
    [partialTx] into the record. Whenever it completes, the record that
    it stores has the whole of [partialTx] under the one property
    [partialTx], and each other property, [block_height] among them, as
    in the record that was stored under [partialTx.txid] before. *)
Theorem smartbit_updateTransaction_keeps_fields (partialTx : object)
    (wallet wallet' : SmartBitWallet.t) (record : SmartBitWallet.Stored) :
  assoc (propertyKey (assoc "txid" partialTx)) (SmartBitWallet.txs wallet)
  = Some record ->
  SmartBitWallet.updateTransaction partialTx wallet = (wallet', Normal) ->
  exists record',
    assoc (propertyKey (assoc "txid" (SmartBitWallet.props record)))
          (SmartBitWallet.txs wallet') = Some record'
    /\ assoc "partialTx" (SmartBitWallet.props record')
       = Some (JObj partialTx)
    /\ forall k, k <> "partialTx" ->
         assoc k (SmartBitWallet.props record')
         = assoc k (SmartBitWallet.props record).
Proof.
  intros Hrecord Hrun.
  pose proof (smartbit_updateTransaction_stores _ _ _ Hrun) as Hstores.
  cbv zeta in Hstores. rewrite Hrecord in Hstores.
  destruct Hstores as [Hstored Hkeeps].
  rewrite (assoc_objSet_ne "partialTx" "txid") in Hstored by discriminate.
  destruct (assoc (propertyKey (assoc "txid" (SmartBitWallet.props record)))
                  (SmartBitWallet.txs wallet')) as [record'|];
    [|discriminate].
  cbn [option_map] in Hstored. injection Hstored as Hprops.
  exists record'. split; [reflexivity|]. rewrite Hprops. split.
  - apply assoc_objSet_eq.
  - exact Hkeeps.
Qed.

Lemma smartbit_updateTransaction_keeps_fields_witness :
  exists wallet' record',
    SmartBitWallet.updateTransaction Samples.minedUpdate Samples.smartBitWallet
    = (wallet', Normal)
    /\ assoc "T" (SmartBitWallet.txs wallet') = Some record'
    /\ assoc "block_height" (SmartBitWallet.props record') = Some JNull.
Proof.
  pose (run := SmartBitWallet.updateTransaction Samples.minedUpdate
                 Samples.smartBitWallet).
  assert (Hrun : run = (fst run, Normal)) by reflexivity.
  destruct (smartbit_updateTransaction_keeps_fields Samples.minedUpdate
              Samples.smartBitWallet (fst run)
              {| SmartBitWallet.frozen := false;
                 SmartBitWallet.props := Samples.unconfirmedRecord |}
              eq_refl Hrun) as (record' & Hstored & _ & Hkeeps).
  exists (fst run), record'. split; [exact Hrun|]. split; [exact Hstored|].
  now rewrite (Hkeeps "block_height") by discriminate.
Defined.

(** X23: [updateTransaction] of [wallet.js] for a transaction that the
    wallet does not have, or whose record has no [outputs], throws a
    [TypeError] in [addTransaction] and changes nothing: neither the
    ledger nor an address entry. *)
Theorem smartbit_updateTransaction_unknown_txid (partialTx : object)
    (wallet : SmartBitWallet.t) :
  match assoc (propertyKey (assoc "txid" partialTx))
              (SmartBitWallet.txs wallet) with
  | None => True
  | Some record => assoc "outputs" (SmartBitWallet.props record) = None
  end ->
  SmartBitWallet.updateTransaction partialTx wallet
  = (wallet, Throws TypeError).
Proof.
  intros Hmissing.
  unfold SmartBitWallet.updateTransaction, SmartBitWallet.addTransaction.
  rewrite (assoc_objSet_ne "partialTx" "outputs") by discriminate.
  destruct (assoc (propertyKey (assoc "txid" partialTx))
                  (SmartBitWallet.txs wallet)) as [record|].
  - now rewrite Hmissing.
  - reflexivity.
Qed.

Lemma smartbit_updateTransaction_unknown_txid_witness :
  SmartBitWallet.updateTransaction
    [("txid", JStr "absent"); ("block_height", JNum 100)]
    Samples.smartBitWallet
  = (Samples.smartBitWallet, Throws TypeError).
Proof.
  apply (smartbit_updateTransaction_unknown_txid
           [("txid", JStr "absent"); ("block_height", JNum 100)]
           Samples.smartBitWallet).
  exact I.
Defined.

End UpdateFacts.

Section BroadcastAlertFacts.
Import Js ElectrumApi SmartBitUi.

(** X24: the message that [broadcastTransaction] of [wallet.js] shows
    never depends on [response.success]: the text before [?] is not
    empty, so for every response but [null] the argument of [alert] is
    [response.txid], also when the push failed, and [response.error] is
    never read. *)
Theorem broadcastAlert_always_txid (response : json) :
  broadcastAlert response
  = match response with
    | JNull => inr TypeError
    | _ => inl (getProp "txid" response)
    end.
Proof.
  unfold broadcastAlert.
  assert (Htext : forall s, truthy (JStr ("Broadcast: " +++ s)) = true)
    by (intros s; reflexivity).
  destruct response; try reflexivity; now rewrite Htext.
Qed.

(** A failed push: the alert shows [undefined], not the message. *)
Example broadcastAlert_failed_push :
  broadcastAlert
    (JObj [("success", JBool false);
           ("error", JObj [("message", JStr "bad-txns-inputs-spent")])])
  = inl None.
Proof. reflexivity. Qed.

End BroadcastAlertFacts.

Section SmartBitAddFacts.
Import Js ElectrumWS ElectrumApi Wallet Ledger.

Lemma smartbit_markOutput_later (output_ : json)
    (ext int ext' int' : list AddressInfo) (c : completion) :
  SmartBitWallet.markOutput output_ ext int = ((ext', int'), c) ->
  Forall2 laterEntry ext ext' /\ Forall2 laterEntry int int'.
Proof.
  unfold SmartBitWallet.markOutput.
  assert (Hsame : forall c0, ((ext, int), c0) = ((ext', int'), c) ->
            Forall2 laterEntry ext ext' /\ Forall2 laterEntry int int')
    by (intros c0 [= <- <- _]; split; apply laterEntry_all_refl).
  assert (Hmark : forall a,
            match SmartBitWallet.markActive a ext with
            | Some ext0 => ((ext0, int), Normal)
            | None =>
                match SmartBitWallet.markActive a int with
                | Some int0 => ((ext, int0), Normal)
                | None => ((ext, int), Normal)
                end
            end = ((ext', int'), c) ->
            Forall2 laterEntry ext ext' /\ Forall2 laterEntry int int').
  { intros a.
    destruct (SmartBitWallet.markActive a ext) as [ext0|] eqn:Hext.
    - intros [= <- <- _]. split; [|apply laterEntry_all_refl].
      apply (markActive_some _ _ _ Hext).
    - destruct (SmartBitWallet.markActive a int) as [int0|] eqn:Hint.
      + intros [= <- <- _]. split; [apply laterEntry_all_refl|].
        apply (markActive_some _ _ _ Hint).
      + apply Hsame. }
  destruct output_ as [| | | |items|props_].
  - destruct ext, int; apply Hsame.
  - cbn [getProp]. apply Hsame.
  - cbn [getProp]. apply Hsame.
  - cbn [getProp]. apply Hsame.
  - cbn [getProp]. apply Hsame.
  - destruct (getProp "address" (JObj props_)) as [[| | |a| |]|];
      try apply Hsame. apply Hmark.
Qed.

Lemma smartbit_markOutputs_later (outputs_ : list json) :
  forall (ext int ext' int' : list AddressInfo) (c : completion),
    SmartBitWallet.markOutputs outputs_ ext int = ((ext', int'), c) ->
    Forall2 laterEntry ext ext' /\ Forall2 laterEntry int int'.
Proof.
  induction outputs_ as [|output_ rest IH]; intros ext int ext' int' c;
    cbn [SmartBitWallet.markOutputs].
  - intros [= <- <- _]. split; apply laterEntry_all_refl.
  - destruct (SmartBitWallet.markOutput output_ ext int)
      as [[ext1 int1] c1] eqn:Hone.
    destruct (smartbit_markOutput_later _ _ _ _ _ _ Hone) as [Hext1 Hint1].
    destruct c1.
    + intros Hrest. destruct (IH _ _ _ _ _ Hrest) as [Hext2 Hint2].
      split; eapply laterEntry_all_trans; eassumption.
    + intros [= <- <- _]. split; assumption.
Qed.

(** X25: [addTransaction] of [wallet.js] stores the transaction under
    its [txid] only when the loop over its outputs completes, frozen
    exactly when its [block_height] is truthy, and leaves the other
    records as they are; when it throws, the ledger is as before. In
    both cases the address lists keep their entries in place, and no
    active entry becomes inactive. *)
Theorem smartbit_addTransaction_stores_or_throws (tx : object)
    (wallet : SmartBitWallet.t) :
  let wallet' := fst (SmartBitWallet.addTransaction tx wallet) in
  let key := propertyKey (assoc "txid" tx) in
  Forall2 laterEntry (SmartBitWallet.ext_addresses wallet)
                     (SmartBitWallet.ext_addresses wallet')
  /\ Forall2 laterEntry (SmartBitWallet.int_addresses wallet)
                        (SmartBitWallet.int_addresses wallet')
  /\ match snd (SmartBitWallet.addTransaction tx wallet) with
     | Normal =>
         assoc key (SmartBitWallet.txs wallet')
         = Some {| SmartBitWallet.frozen :=
                     match assoc "block_height" tx with
                     | Some h => truthy h
                     | None => false
                     end;
                   SmartBitWallet.props := tx |}
         /\ forall id, id <> key ->
              assoc id (SmartBitWallet.txs wallet')
              = assoc id (SmartBitWallet.txs wallet)
     | Throws _ => SmartBitWallet.txs wallet' = SmartBitWallet.txs wallet
     end.
Proof.
  unfold SmartBitWallet.addTransaction.
  destruct (assoc "outputs" tx ≫= spread) as [outputs_|].
  - destruct (SmartBitWallet.markOutputs outputs_ _ _)
      as [[ext' int'] c] eqn:Hmark.
    destruct (smartbit_markOutputs_later _ _ _ _ _ _ Hmark) as [Hext Hint].
    destruct c; cbn [fst snd SmartBitWallet.ext_addresses
                     SmartBitWallet.int_addresses SmartBitWallet.txs].
    + split; [exact Hext|]. split; [exact Hint|].
      split; [apply assoc_objSet_eq|].
      intros id Hne. apply assoc_objSet_ne. congruence.
    + split; [exact Hext|]. split; [exact Hint|]. reflexivity.
  - cbn [fst snd]. split; [apply laterEntry_all_refl|].
    split; [apply laterEntry_all_refl | reflexivity].
Qed.

(** The second output is [null]: the address of the first one is
    active already when the method throws, and the transaction is not
    stored. *)
Example smartbit_addTransaction_throws_midway :
  SmartBitWallet.addTransaction
    [("txid", JStr "T");
     ("outputs", JArr [JObj [("address", JStr "X")]; JNull])]
    {| SmartBitWallet.ext_addresses := [setActive false Samples.addressX];
       SmartBitWallet.int_addresses := [];
       SmartBitWallet.txs := [] |}
  = ({| SmartBitWallet.ext_addresses := [Samples.addressX];
        SmartBitWallet.int_addresses := [];
        SmartBitWallet.txs := [] |}, Throws TypeError).
Proof. reflexivity. Qed.

End SmartBitAddFacts.
